(** * One-page checkout: address-form reconciliation

    A shallow embedding of the shipping-address form logic
    ([mapAddressToFormValues.ts], [SingleShippingForm.tsx],
    [MultiShippingForm.tsx], [getCustomFormFieldsValidationSchema]) and the
    properties the specification states about it.

    JavaScript objects used as string-keyed maps are [gmap string _];
    [undefined] is [None].  An asynchronous handler is a task over the
    component instance that is given how each promise it awaits settles;
    the debounced address update is split at its [await], so that the
    form can be run as a sequence of timed events. *)

From Stdlib Require Import Ascii.
From stdpp Require Import base option list strings gmap pretty.

Open Scope string_scope.
Open Scope list_scope.

(** ** JavaScript values that occur in addresses and form values *)

(** A [Date] is kept as the constructor call that built it; only its
    rendering ([Date.prototype.toString], which depends on the host's time
    zone) is left to the runtime. *)
Inductive JsDate : Type :=
| DateParse (source : string)
    (* new Date(source) *)
| DateOfParts (year month day : option string).
    (* new Date(Number(year), Number(month)-1, Number(day)) *)

(** [string | string[] | number | Date | null]; [undefined] is the [None]
    of [option FieldValue].  Numeric field values are the integer-typed
    fields of the checkout SDK. *)
Inductive FieldValue : Type :=
| VNull
| VString (s : string)
| VStrings (l : list string)
| VNumber (n : Z)
| VDate (d : JsDate).

(** A property of the [AddressFormValues] object: a field value, the
    boolean [shouldSaveAddress], or the nested [customFields] object. *)
Inductive FormValue : Type :=
| FLeaf (v : FieldValue)
| FBool (b : bool)
| FObject (o : gmap string FieldValue).

#[global] Instance JsDate_eq_dec : EqDecision JsDate.
Proof. solve_decision. Defined.

#[global] Instance FieldValue_eq_dec : EqDecision FieldValue.
Proof. solve_decision. Defined.

#[global] Instance FormValue_eq_dec : EqDecision FormValue.
Proof. solve_decision. Defined.

Class JsRuntime : Type := {
  (* Date.prototype.toString *)
  dateToString : JsDate → string
}.

(** JavaScript truthiness of an optional string ([defaultValue ? .. : ..]). *)
Definition truthy (s : option string) : bool :=
  match s with
  | Some s => negb (String.eqb s "")
  | None => false
  end.

(** [s || ''] for an optional string. *)
Definition orEmpty (s : option string) : string :=
  if truthy s then default "" s else "".

(** [String.prototype.split('-')]. *)
Fixpoint split_dash (s : string) : list string :=
  match s with
  | EmptyString => [EmptyString]
  | String c rest =>
      if Ascii.eqb c "-"%char then EmptyString :: split_dash rest
      else match split_dash rest with
           | hd :: tl => String c hd :: tl
           | [] => [String c EmptyString]
           end
  end.

(** [v?.toString()]: [undefined] and [null] short-circuit to [undefined];
    an array renders as its elements joined by commas. *)
Definition optionalToString `{JsRuntime} (v : option FieldValue) : option string :=
  match v with
  | None | Some VNull => None
  | Some (VString s) => Some s
  | Some (VStrings l) => Some (String.concat "," l)
  | Some (VNumber n) => Some (pretty n)
  | Some (VDate d) => Some (dateToString d)
  end.

(** ** SDK records *)

(** [FormField] of the checkout SDK; [defaultValue] is its [default]
    property (the name the source destructures it to), [type] its value
    type and [fieldType] its widget type. *)
Record FormField : Type := {
  name : string;
  custom : bool;
  fieldType : option string;
  type : option string;
  defaultValue : option string;
  required : bool
}.

(** [Address]: the scalar properties read as [address[name]], the
    [customFields] array of [{fieldId, fieldValue}] entries, and the
    optional [shouldSaveAddress] flag. *)
Record Address : Type := {
  addressProps : gmap string FieldValue;
  customFields : option (list (string * FieldValue));
  shouldSaveAddress : option bool
}.

#[global] Instance Address_eq_dec : EqDecision Address.
Proof. solve_decision. Defined.

(** [AddressFormValues]: one flat object keyed by field name, with the
    nested [customFields] object and the [shouldSaveAddress] boolean under
    their own keys. *)
Abbreviation AddressFormValues := (gmap string FormValue).

(** [address && address.countryCode]. *)
Definition countryCodeOf (address : option Address) : option string :=
  match address with
  | Some a =>
      match addressProps a !! "countryCode" with
      | Some (VString c) => Some c
      | _ => None
      end
  | None => None
  end.

(** Modelled from the spec: the [DynamicFormFieldType] enum of [../ui/form]
    is not among the sources; its members are the field-type names the
    specification lists, and [SingleShippingForm.tsx] compares [fieldType]
    with the literal ['checkbox']. *)
Module DynamicFormFieldType.
Definition checkbox : string := "checkbox".
Definition date : string := "date".
Definition dropdown : string := "dropdown".
Definition text : string := "text".
End DynamicFormFieldType.

(** ** mapAddressToFormValues.ts *)

Definition getDefaultValue (fieldType defaultValue : option string) : FieldValue :=
  if truthy defaultValue && bool_decide (fieldType = Some DynamicFormFieldType.date)
  then VDate (DateParse (default "" defaultValue))
  else if bool_decide (fieldType = Some DynamicFormFieldType.checkbox)
  then VStrings []
  else VString (orEmpty defaultValue).

Definition getValue (fieldType : option string) (fieldValue : option FieldValue)
    (defaultValue : option string) : option FieldValue :=
  match fieldValue with
  | None | Some VNull => Some (getDefaultValue fieldType defaultValue)
  | Some (VString s) =>
      if bool_decide (fieldType = Some DynamicFormFieldType.date) then
        if negb (String.eqb s "") then
          let parts := split_dash s in
          Some (VDate (DateOfParts (parts !! 0%nat) (parts !! 1%nat) (parts !! 2%nat)))
        else None
      else Some (VString s)
  | Some v => Some v
  end.

Definition isSystemAddressFieldName (fieldName : string) : bool :=
  negb (String.eqb fieldName "customFields")
  && negb (String.eqb fieldName "shouldSaveAddress").

(** Truthiness of a property of the accumulator ([!addressFormValues.customFields]). *)
Definition truthyProperty (v : option FormValue) : bool :=
  match v with
  | None => false
  | Some (FObject _) => true
  | Some (FBool b) => b
  | Some (FLeaf VNull) => false
  | Some (FLeaf (VString s)) => negb (String.eqb s "")
  | Some (FLeaf (VNumber n)) => negb (Z.eqb n 0)
  | Some (FLeaf _) => true
  end.

(** The value a custom field is initialised with (lines 23-35). *)
Definition customFieldValue (fieldType defaultValue : option string) : FieldValue :=
  if bool_decide (fieldType = Some DynamicFormFieldType.checkbox) then VStrings []
  else if bool_decide (fieldType = Some DynamicFormFieldType.date) then
    if truthy defaultValue then getDefaultValue fieldType defaultValue else VString ""
  else if bool_decide (fieldType = Some DynamicFormFieldType.dropdown) && truthy defaultValue
  then VString (default "" defaultValue)
  else VString "".

(** [address && address[name]]. *)
Definition addressField (address : option Address) (fieldName : string) : option FieldValue :=
  match address with
  | Some a => addressProps a !! fieldName
  | None => None
  end.

(** The string a system field is mapped to (lines 41-47):
    [getValue(..)?.toString() || '']. *)
Definition systemFieldValue `{JsRuntime} (address : option Address) (f : FormField) : string :=
  orEmpty (optionalToString
             (getValue (fieldType f) (addressField address (name f)) (defaultValue f))).

(** The callback of [fields.reduce].  The accumulator object is created
    by the reduce itself and threaded through, so updating it in place is
    the functional update below.  Assigning through a [customFields]
    property that is not an object cannot happen (the system branch never
    writes that key); the accumulator is then left as it is. *)
Definition reducer `{JsRuntime} (address : option Address)
    (addressFormValues : AddressFormValues) (f : FormField) : AddressFormValues :=
  if custom f then
    let acc :=
      if negb (truthyProperty (addressFormValues !! "customFields"))
      then <["customFields" := FObject ∅]> addressFormValues
      else addressFormValues in
    match acc !! "customFields" with
    | Some (FObject o) =>
        <["customFields" :=
            FObject (<[name f := customFieldValue (fieldType f) (defaultValue f)]> o)]> acc
    | _ => acc
    end
  else if isSystemAddressFieldName (name f) then
    <[name f := FLeaf (VString (systemFieldValue address f))]> addressFormValues
  else addressFormValues.

Definition backfill (key : string) (values : AddressFormValues) : AddressFormValues :=
  match values !! key with
  | None => <[key := FLeaf (VString "")]> values
  | Some _ => values
  end.

Definition mapAddressToFormValues `{JsRuntime} (fields : list FormField)
    (address : option Address) : AddressFormValues :=
  let values := foldl (reducer address) ∅ fields in
  let values :=
    <["shouldSaveAddress" :=
        FBool (match address with
               | Some a => match shouldSaveAddress a with
                           | Some b => b
                           | None => true
                           end
               | None => true
               end)]> values in
  let values := backfill "stateOrProvince" values in
  backfill "stateOrProvinceCode" values.

(** ** Exceptions, settled promises and handlers *)

Inductive JsError : Type :=
| SdkError (message : string)
| AssignItemInvalidAddressError
| AssignItemFailedError (cause : JsError).

(** What a [catch] clause receives: an [Error] instance or any other
    thrown value. *)
Inductive Thrown : Type :=
| ThrowError (e : JsError)
| ThrowValue (description : string).

(** [error instanceof Error]. *)
Definition instanceofError (t : Thrown) : option JsError :=
  match t with
  | ThrowError e => Some e
  | ThrowValue _ => None
  end.

(** How an awaited promise settles, or how a synchronous call completes. *)
Inductive Settled (A : Type) : Type :=
| Fulfilled (a : A)
| Rejected (t : Thrown).

Arguments Fulfilled {A} a.
Arguments Rejected {A} t.

(** A handler over the component instance [W]: it runs to a value or to a
    thrown exception, and leaves the instance in a new state either way. *)
Definition Task (W A : Type) : Type := W → Settled A * W.

#[global] Instance Task_ret W : MRet (Task W) := λ A a w, (Fulfilled a, w).

#[global] Instance Task_bind W : MBind (Task W) := λ A B k m w,
  match m w with
  | (Fulfilled a, w') => k a w'
  | (Rejected t, w') => (Rejected t, w')
  end.

Definition modify {W} (f : W → W) : Task W unit := λ w, (Fulfilled tt, f w).

Definition gets {W A} (f : W → A) : Task W A := λ w, (Fulfilled (f w), w).

(** [await p] for a promise that settles as [o]; also the completion of a
    call into the host page. *)
Definition settle {W A} (o : Settled A) : Task W A := λ w, (o, w).

(** [try { body } catch (error) { handler(error) }]. *)
Definition tryCatch {W A} (body : Task W A) (handler : Thrown → Task W A) : Task W A :=
  λ w, match body w with
       | (Rejected t, w') => handler t w'
       | r => r
       end.

(** [try { body } finally { cleanup }]: the cleanup runs on every path; if
    it completes normally the body's completion stands. *)
Definition tryFinally {W A} (body : Task W A) (cleanup : Task W unit) : Task W A :=
  λ w, let '(r, w1) := body w in
       match cleanup w1 with
       | (Fulfilled _, w2) => (r, w2)
       | (Rejected t, w2) => (Rejected t, w2)
       end.

(** Modelled from the spec: lodash's [debounce] is an external library.  It
    is the single-slot pending-request cell of the design notes: a new
    request overwrites the pending payload and restarts the countdown, and
    only the last write fires, [wait] milliseconds after it was made. *)
Record Debounced (A : Type) : Type := {
  wait : nat;
  pendingArgs : option A;
  lastCallTime : nat
}.

Arguments wait {A} d.
Arguments pendingArgs {A} d.
Arguments lastCallTime {A} d.

Definition debounce {A} (delay : nat) : Debounced A :=
  {| wait := delay; pendingArgs := None; lastCallTime := 0 |}.

Definition invoke {A} (now : nat) (args : A) (d : Debounced A) : Debounced A :=
  {| wait := wait d; pendingArgs := Some args; lastCallTime := now |}.

(** The arguments of the trailing call, once the countdown has run out. *)
Definition expired {A} (now : nat) (d : Debounced A) : option A :=
  match pendingArgs d with
  | Some args => if (lastCallTime d + wait d <=? now)%nat then Some args else None
  | None => None
  end.

Definition clearPending {A} (d : Debounced A) : Debounced A :=
  {| wait := wait d; pendingArgs := None; lastCallTime := lastCallTime d |}.

(** ** The rest of the checkout SDK and of the repository *)

Record Consignment : Type := {
  consignmentId : string;
  selectedShippingOptionId : option string
}.

Record Cart : Type := {
  lineItemIds : list string
}.

(** Modelled from the spec: [ShippableItem] is declared outside the
    sources; it has a key that is stable per assignment slot, the item's
    id and the address it is assigned to, if any. *)
Module ShippableItem.
Record t : Type := {
  key : string;
  itemId : string;
  assignedAddress : option Address
}.
End ShippableItem.

(** [Array.prototype.findIndex]: the first index that satisfies the
    predicate, or [-1]. *)
Fixpoint findIndex {A} (p : A → bool) (l : list A) : Z :=
  match l with
  | [] => (-1)%Z
  | x :: l =>
      if p x then 0%Z
      else let i := findIndex p l in
           if (i <? 0)%Z then (-1)%Z else (i + 1)%Z
  end.

(** Functions of [../address] that the forms import. *)
Class AddressModule : Type := {
  mapAddressFromFormValues : AddressFormValues → Address;
  isEqualAddress : Address → option Address → bool;
  isValidAddress : Address → list FormField → bool → bool;
  (* the yup schema it builds, as the [isValidSync] of that schema *)
  getAddressFormFieldsValidationSchema : list FormField → option AddressFormValues → bool
}.

(** Constants and functions of [./] (shipping) and of
    [../payment/paymentMethod] that the forms import. *)
Class ShippingModule : Type := {
  SHIPPING_ADDRESS_FIELDS : list string;
  hasSelectedShippingOptions : list Consignment → bool;
  isSelectedShippingOptionValid : list Consignment → bool;
  updateShippableItems :
    list ShippableItem.t → Z → Address → Cart → list Consignment
    → option (list ShippableItem.t);
  BraintreeAcceleratedCheckout : string;
  PayPalCommerceAcceleratedCheckout : string
}.

(** ** getCustomFormFieldsValidationSchema *)

(** [object({ customFields: object().nullable(true) })], as its
    [isValidSync]: the options are ignored, and the only constraint left is
    yup's type check of the [customFields] property, which accepts an
    absent value, [null] and any object. *)
Definition getCustomFormFieldsValidationSchema (_ : list FormField)
    (formValues : option AddressFormValues) : bool :=
  match formValues with
  | None => true
  | Some v =>
      match v !! "customFields" with
      | None | Some (FObject _) | Some (FLeaf VNull) => true
      | Some _ => false
      end
  end.

(** ** SingleShippingForm.tsx *)

Module SingleShippingForm.

Record SingleShippingFormValues : Type := {
  billingSameAsShipping : bool;
  addressForm : option AddressFormValues;   (* values.shippingAddress *)
  orderComment : string
}.

Record SingleShippingFormState : Type := {
  isResettingAddress : bool;
  isUpdatingShippingData : bool;
  hasRequestedShippingOptions : bool
}.

(** The props the handlers read, with the Formik props [isValid] and
    [values].  [onUnhandledError] is what the host's callback does when
    called: it returns or throws. *)
Record SingleShippingFormProps : Type := {
  consignments : list Consignment;
  isLoading : bool;
  methodId : option string;
  shippingAddress : option Address;
  shippingAutosaveDelay : option nat;
  getFields : option string → list FormField;
  onUnhandledError : option (Thrown → Settled unit);
  isValid : bool;
  values : SingleShippingFormValues
}.

(** Calls that leave the component: to the checkout service, to Formik
    and to the host page. *)
Inductive Effect : Type :=
| UpdateAddress (address : Address) (includeShippingOptions : option bool)
| DeleteConsignments
| SetFieldValue (field value : string)
| SetValues (v : SingleShippingFormValues)
| UnhandledError (t : Thrown).

(** A mounted form: its React state, its debounced function, the clock
    of the event loop (milliseconds), the debounced calls whose
    [updateAddress] promise has not settled yet, and the effects so far,
    oldest first. *)
Record Component : Type := {
  state : SingleShippingFormState;
  debouncedUpdateAddress : Debounced (Address * bool);
  now : nat;
  inFlight : list (Address * bool);
  effects : list Effect
}.

Definition SHIPPING_AUTOSAVE_DELAY : nat := 1700.

(** The exclusion list of [shouldHaveCustomValidation]. *)
Definition methodIdsWithoutCustomValidation `{ShippingModule} : list string :=
  [BraintreeAcceleratedCheckout; PayPalCommerceAcceleratedCheckout].

Definition shouldHaveCustomValidation `{ShippingModule} (methodId : option string) : bool :=
  truthy methodId
  && negb (bool_decide (default "" methodId ∈ methodIdsWithoutCustomValidation)).

(** The field initialiser and the constructor. *)
Definition construct (props : SingleShippingFormProps) : Component :=
  {| state := {| isResettingAddress := false;
                 isUpdatingShippingData := false;
                 hasRequestedShippingOptions := false |};
     debouncedUpdateAddress :=
       debounce (default SHIPPING_AUTOSAVE_DELAY (shippingAutosaveDelay props));
     now := 0;
     inFlight := [];
     effects := [] |}.

Definition setState (f : SingleShippingFormState → SingleShippingFormState)
    : Task Component unit :=
  modify (λ c, {| state := f (state c);
                  debouncedUpdateAddress := debouncedUpdateAddress c;
                  now := now c;
                  inFlight := inFlight c;
                  effects := effects c |}).

Definition perform (e : Effect) : Task Component unit :=
  modify (λ c, {| state := state c;
                  debouncedUpdateAddress := debouncedUpdateAddress c;
                  now := now c;
                  inFlight := inFlight c;
                  effects := effects c ++ [e] |}).

Definition setIsResettingAddress (b : bool) (s : SingleShippingFormState) :=
  {| isResettingAddress := b;
     isUpdatingShippingData := isUpdatingShippingData s;
     hasRequestedShippingOptions := hasRequestedShippingOptions s |}.

Definition setIsUpdatingShippingData (b : bool) (s : SingleShippingFormState) :=
  {| isResettingAddress := isResettingAddress s;
     isUpdatingShippingData := b;
     hasRequestedShippingOptions := hasRequestedShippingOptions s |}.

Definition setHasRequestedShippingOptions (b : bool) (s : SingleShippingFormState) :=
  {| isResettingAddress := isResettingAddress s;
     isUpdatingShippingData := isUpdatingShippingData s;
     hasRequestedShippingOptions := b |}.

(** The function handed to [debounce], from its [await] on: the
    continuation that receives how [updateAddress] settled. *)
Definition updateAddressSettled (includeShippingOptions : bool) (outcome : Settled unit)
    : Task Component unit :=
  tryFinally
    (settle outcome ;;
     if includeShippingOptions
     then setState (setHasRequestedShippingOptions true)
     else mret tt)
    (setState (setIsUpdatingShippingData false)).

(** [this.debouncedUpdateAddress(address, includeShippingOptions)]. *)
Definition callDebouncedUpdateAddress (address : Address) (includeShippingOptions : bool)
    : Task Component unit :=
  modify (λ c, {| state := state c;
                  debouncedUpdateAddress :=
                    invoke (now c) (address, includeShippingOptions)
                           (debouncedUpdateAddress c);
                  now := now c;
                  inFlight := inFlight c;
                  effects := effects c |}).

(** [Array.isArray(shippingAddress?.customFields)]. *)
Definition hasCustomFieldsArray (address : option Address) : bool :=
  match address with
  | Some a => bool_decide (is_Some (customFields a))
  | None => false
  end.

(** The [includeShippingOptions] that [updateAddressWithFormData] passes
    on (lines 311-316); [isEqual] is lodash's deep equality. *)
Definition withCustomFieldChange (shippingAddress updatedShippingAddress : option Address)
    (includeShippingOptions : bool) : bool :=
  if hasCustomFieldsArray shippingAddress
  then negb (bool_decide ((shippingAddress ≫= customFields)
                          = (updatedShippingAddress ≫= customFields)))
       || includeShippingOptions
  else includeShippingOptions.

Definition updateAddressWithFormData `{AddressModule} (props : SingleShippingFormProps)
    (includeShippingOptions : bool) : Task Component unit :=
  let updatedShippingAddress := mapAddressFromFormValues <$> addressForm (values props) in
  let includeShippingOptions :=
    withCustomFieldChange (shippingAddress props) updatedShippingAddress
                          includeShippingOptions in
  match updatedShippingAddress with
  | None => mret tt
  | Some updated =>
      if isEqualAddress updated (shippingAddress props) then mret tt
      else
        setState (setIsUpdatingShippingData true) ;;
        callDebouncedUpdateAddress updated includeShippingOptions
  end.

(** [props] are the props as rendered when the handler resumes after its
    [setTimeout] tick, that is, after Formik has validated the edit. *)
Definition handleFieldChange `{AddressModule} `{ShippingModule}
    (props : SingleShippingFormProps) (name : string) : Task Component unit :=
  (if String.eqb name "countryCode"
   then perform (SetFieldValue "shippingAddress.stateOrProvince" "") ;;
        perform (SetFieldValue "shippingAddress.stateOrProvinceCode" "")
   else mret tt) ;;
  let isShippingField := bool_decide (name ∈ SHIPPING_ADDRESS_FIELDS) in
  hasRequested ← gets (λ c, hasRequestedShippingOptions (state c)) ;
  if negb (isValid props) then mret tt
  else updateAddressWithFormData props (isShippingField || negb hasRequested).

(** The value the reset loop writes for one custom field (lines
    348-356): three of its four branches write the empty string. *)
Definition resetValue (field : FormField) : FieldValue :=
  if bool_decide (fieldType field = Some "checkbox") then VStrings []
  else if bool_decide (type field = Some "date") then VString ""
  else if bool_decide (type field = Some "integer") then VString ""
  else VString "".

(** [if (addressFormValues.customFields) { customFields.forEach(..) }]. *)
Definition resetCustomFields (fields : list FormField)
    (addressFormValues : AddressFormValues) : AddressFormValues :=
  if truthyProperty (addressFormValues !! "customFields") then
    foldl (λ acc field,
             match acc !! "customFields" with
             | Some (FObject o) =>
                 <["customFields" := FObject (<[name field := resetValue field]> o)]> acc
             | _ => acc
             end)
          addressFormValues
          (filter (λ field, custom field = true) fields)
  else addressFormValues.

(** [onUnhandledError(error)], with [noop] when the prop is absent. *)
Definition callOnUnhandledError (props : SingleShippingFormProps) (error : Thrown)
    : Task Component unit :=
  perform (UnhandledError error) ;;
  settle (match onUnhandledError props with
          | Some callback => callback error
          | None => Fulfilled tt
          end).

Definition withAddressForm (v : SingleShippingFormValues) (form : AddressFormValues)
    : SingleShippingFormValues :=
  {| billingSameAsShipping := billingSameAsShipping v;
     addressForm := Some form;
     orderComment := orderComment v |}.

(** [outcome] is how the awaited [updateAddress(address)] settles. *)
Definition handleAddressSelect `{JsRuntime} (props : SingleShippingFormProps)
    (address : Address) (outcome : Settled unit) : Task Component unit :=
  setState (setIsResettingAddress true) ;;
  tryFinally
    (tryCatch
       (perform (UpdateAddress address None) ;;
        settle outcome ;;
        let fields := getFields props (countryCodeOf (Some address)) in
        let addressFormValues :=
          resetCustomFields fields (mapAddressToFormValues fields (Some address)) in
        perform (SetValues (withAddressForm (values props) addressFormValues)))
       (callOnUnhandledError props))
    (setState (setIsResettingAddress false)).

(** [outcome] is how the awaited [deleteConsignments()] settles. *)
Definition onUseNewAddress `{JsRuntime} (props : SingleShippingFormProps)
    (outcome : Settled (option Address)) : Task Component unit :=
  setState (setIsResettingAddress true) ;;
  tryFinally
    (tryCatch
       (perform DeleteConsignments ;;
        address ← settle outcome ;
        let fields := getFields props (countryCodeOf address) in
        let addressFormValues :=
          resetCustomFields fields (mapAddressToFormValues fields address) in
        perform (SetValues (withAddressForm (values props) addressFormValues)))
       (callOnUnhandledError props))
    (setState (setIsResettingAddress false)).

(** [shouldDisableSubmit] as on the [HEAD] side of the conflict region
    the file carries at lines 266-276. *)
Definition shouldDisableSubmit `{ShippingModule} (props : SingleShippingFormProps)
    (s : SingleShippingFormState) : bool :=
  isLoading props || isUpdatingShippingData s
  || negb (hasSelectedShippingOptions (consignments props)).

(** The other side of the same conflict region (revision [32f569a]). *)
Definition shouldDisableSubmit_32f569a `{ShippingModule} (props : SingleShippingFormProps)
    (s : SingleShippingFormState) : bool :=
  if negb (isValid props) then false
  else isLoading props || isUpdatingShippingData s
       || negb (hasSelectedShippingOptions (consignments props))
       || negb (isSelectedShippingOptionValid (consignments props)).

(** The schema that validates [shippingAddress], named by the function
    that builds it. *)
Inductive ShippingAddressSchema : Type :=
| CustomFormFieldsValidationSchema (formFields : list FormField)
| AddressFormFieldsValidationSchema (formFields : list FormField).

(** [formValues && formValues.countryCode]. *)
Definition formCountryCode (formValues : option AddressFormValues) : option string :=
  match formValues with
  | Some v =>
      match v !! "countryCode" with
      | Some (FLeaf (VString c)) => Some c
      | _ => None
      end
  | None => None
  end.

(** The [validationSchema] option, applied to the form values the lazy
    schema receives. *)
Definition validationSchema `{ShippingModule} (props : SingleShippingFormProps)
    (formValues : option AddressFormValues) : ShippingAddressSchema :=
  if shouldHaveCustomValidation (methodId props)
  then CustomFormFieldsValidationSchema (getFields props (formCountryCode formValues))
  else AddressFormFieldsValidationSchema (getFields props (formCountryCode formValues)).

Definition isValidSync `{AddressModule} (schema : ShippingAddressSchema)
    (formValues : option AddressFormValues) : bool :=
  match schema with
  | CustomFormFieldsValidationSchema formFields =>
      getCustomFormFieldsValidationSchema formFields formValues
  | AddressFormFieldsValidationSchema formFields =>
      getAddressFormFieldsValidationSchema formFields formValues
  end.

(** *** The form on the event loop *)

(** The debounce timer: when the countdown has run out, the debounced
    function is called with the pending arguments; it calls
    [updateAddress] and waits for it. *)
Definition fire (c : Component) : Component :=
  match expired (now c) (debouncedUpdateAddress c) with
  | Some (address, includeShippingOptions) =>
      {| state := state c;
         debouncedUpdateAddress := clearPending (debouncedUpdateAddress c);
         now := now c;
         inFlight := inFlight c ++ [(address, includeShippingOptions)];
         effects := effects c ++ [UpdateAddress address (Some includeShippingOptions)] |}
  | None => c
  end.

(** Let the clock reach [t]. *)
Definition advance (t : nat) (c : Component) : Component :=
  fire {| state := state c;
          debouncedUpdateAddress := debouncedUpdateAddress c;
          now := now c `max` t;
          inFlight := inFlight c;
          effects := effects c |}.

Inductive Event : Type :=
| FieldChange (props : SingleShippingFormProps) (name : string)
| UpdateAddressSettles (index : nat) (outcome : Settled unit).

Definition removeInFlight (index : nat) (c : Component) : Component :=
  {| state := state c;
     debouncedUpdateAddress := debouncedUpdateAddress c;
     now := now c;
     inFlight := delete index (inFlight c);
     effects := effects c |}.

Definition handle `{AddressModule} `{ShippingModule} (e : Event) (c : Component)
    : Component :=
  match e with
  | FieldChange props name => (handleFieldChange props name c).2
  | UpdateAddressSettles index outcome =>
      match inFlight c !! index with
      | Some (_, includeShippingOptions) =>
          (updateAddressSettled includeShippingOptions outcome (removeInFlight index c)).2
      | None => c
      end
  end.

(** Events in the order they happen, each with the time it happens at. *)
Definition run `{AddressModule} `{ShippingModule} (events : list (nat * Event))
    (c : Component) : Component :=
  foldl (λ c '(t, e), handle e (advance t c)) c events.

(** The [updateAddress] calls among some effects, oldest first. *)
Definition updateAddressCalls (es : list Effect) : list (Address * option bool) :=
  omap (λ e, match e with
             | UpdateAddress address includeShippingOptions =>
                 Some (address, includeShippingOptions)
             | _ => None
             end) es.

(** The props that only [componentDidUpdate] and [mapPropsToValues] read. *)
Record RenderProps : Type := {
  shippingFormRenderTimestamp : option nat;
  isBillingSameAsShipping : bool;
  customerMessage : string
}.

(** [componentDidUpdate(prevProps)], with the render timestamp of the
    previous props. *)
Definition componentDidUpdate `{JsRuntime} (prevShippingFormRenderTimestamp : option nat)
    (props : SingleShippingFormProps) (rendered : RenderProps) : Task Component unit :=
  if bool_decide (shippingFormRenderTimestamp rendered ≠ prevShippingFormRenderTimestamp)
  then
    let fields := getFields props (countryCodeOf (shippingAddress props)) in
    let addressFormValues :=
      resetCustomFields fields (mapAddressToFormValues fields (shippingAddress props)) in
    perform (SetValues {| billingSameAsShipping := isBillingSameAsShipping rendered;
                          addressForm := Some addressFormValues;
                          orderComment := customerMessage rendered |})
  else mret tt.

(** The [mapPropsToValues] option: the initial values of the form. *)
Definition mapPropsToValues `{JsRuntime} (props : SingleShippingFormProps)
    (rendered : RenderProps) : SingleShippingFormValues :=
  {| billingSameAsShipping := isBillingSameAsShipping rendered;
     addressForm :=
       Some (mapAddressToFormValues
               (getFields props (countryCodeOf (shippingAddress props)))
               (shippingAddress props));
     orderComment := customerMessage rendered |}.

Definition isFieldChange (e : Event) : bool :=
  match e with
  | FieldChange _ _ => true
  | UpdateAddressSettles _ _ => false
  end.

(** The number of field changes among some events. *)
Definition fieldChanges (events : list (nat * Event)) : nat :=
  length (filter (λ e, isFieldChange e.2 = true) events).

End SingleShippingForm.

(** More functions of the shipping directory, read by
    [getDerivedStateFromProps]. *)
Class ShippableItemsModule : Type := {
  getShippableItemsCount : Cart → nat;
  getShippableLineItems : Cart → list Consignment → list ShippableItem.t
}.

(** ** MultiShippingForm.tsx *)

Module MultiShippingForm.

Record ShippableItemId : Type := {
  key : string;
  itemId : string
}.

Record MultiShippingFormState : Type := {
  items : list ShippableItem.t;
  itemAddingAddress : option ShippableItemId;
  createCustomerAddressError : option JsError
}.

Record ConsignmentAssignmentRequestBody : Type := {
  address : Address;
  lineItems : list (string * nat)   (* { itemId, quantity } *)
}.

Record CheckoutStoreSelector : Type := {
  getCart : Cart;
  getConsignments : list Consignment
}.

(** [onUnhandledError] is what the host's callback does when called. *)
Record MultiShippingFormProps : Type := {
  consignments : list Consignment;
  isLoading : bool;
  validateAddressFields : bool;
  getFields : option string → list FormField;
  onUnhandledError : JsError → Settled unit
}.

Inductive Effect : Type :=
| AssignItem (consignment : ConsignmentAssignmentRequestBody)
| CreateCustomerAddress (address : Address)
| UnhandledError (error : JsError).

Record Component : Type := {
  state : MultiShippingFormState;
  effects : list Effect
}.

Definition initial : Component :=
  {| state := {| items := []; itemAddingAddress := None;
                 createCustomerAddressError := None |};
     effects := [] |}.

Definition setState (f : MultiShippingFormState → MultiShippingFormState)
    : Task Component unit :=
  modify (λ c, {| state := f (state c); effects := effects c |}).

Definition perform (e : Effect) : Task Component unit :=
  modify (λ c, {| state := state c; effects := effects c ++ [e] |}).

Definition setItems (l : list ShippableItem.t) (s : MultiShippingFormState) :=
  {| items := l;
     itemAddingAddress := itemAddingAddress s;
     createCustomerAddressError := createCustomerAddressError s |}.

Definition setItemAddingAddress (i : option ShippableItemId) (s : MultiShippingFormState) :=
  {| items := items s;
     itemAddingAddress := i;
     createCustomerAddressError := createCustomerAddressError s |}.

Definition setCreateCustomerAddressError (e : option JsError) (s : MultiShippingFormState) :=
  {| items := items s;
     itemAddingAddress := itemAddingAddress s;
     createCustomerAddressError := e |}.

Definition callOnUnhandledError (props : MultiShippingFormProps) (error : JsError)
    : Task Component unit :=
  perform (UnhandledError error) ;;
  settle (onUnhandledError props error).

Definition syncItems `{ShippingModule} (key : string) (address : Address)
    (data : CheckoutStoreSelector) : Task Component unit :=
  currentItems ← gets (λ c, items (state c)) ;
  match updateShippableItems currentItems
          (findIndex (λ item, String.eqb (ShippableItem.key item) key) currentItems)
          address (getCart data) (getConsignments data) with
  | Some items => setState (setItems items)
  | None => mret tt
  end.

(** [outcome] is how the awaited [assignItem(..)] settles. *)
Definition handleSelectAddress `{AddressModule} `{ShippingModule}
    (props : MultiShippingFormProps) (address : Address) (itemId itemKey : string)
    (outcome : Settled CheckoutStoreSelector) : Task Component unit :=
  if negb (isValidAddress address (getFields props (countryCodeOf (Some address)))
                          (validateAddressFields props))
  then callOnUnhandledError props AssignItemInvalidAddressError
  else
    tryCatch
      (perform (AssignItem {| address := address; lineItems := [(itemId, 1%nat)] |}) ;;
       data ← settle outcome ;
       syncItems itemKey address data)
      (λ error,
         match instanceofError error with
         | Some e => callOnUnhandledError props (AssignItemFailedError e)
         | None => mret tt
         end).

(** [assigned] is how the awaited [assignItem(..)] settles and
    [persisted] how the awaited [createCustomerAddress(..)] does. *)
Definition handleSaveAddress `{AddressModule} `{ShippingModule}
    (props : MultiShippingFormProps) (address : AddressFormValues)
    (assigned : Settled CheckoutStoreSelector) (persisted : Settled unit)
    : Task Component unit :=
  adding ← gets (λ c, itemAddingAddress (state c)) ;
  match adding with
  | None => mret tt
  | Some adding =>
      let shippingAddress := mapAddressFromFormValues address in
      handleSelectAddress props shippingAddress (itemId adding) (key adding) assigned ;;
      tryCatch
        (perform (CreateCustomerAddress shippingAddress) ;;
         settle persisted)
        (λ error,
           match instanceofError error with
           | Some e => setState (setCreateCustomerAddressError (Some e))
           | None => mret tt
           end) ;;
      setState (setItemAddingAddress None)
  end.

Definition handleUseNewAddress (itemId itemKey : string) : Task Component unit :=
  setState (setItemAddingAddress (Some {| key := itemKey; itemId := itemId |})).

Definition handleCloseAddAddressForm : Task Component unit :=
  setState (setItemAddingAddress None).

Definition handleCloseErrorModal : Task Component unit :=
  setState (setCreateCustomerAddressError None).

Definition shouldDisableSubmit `{ShippingModule} (props : MultiShippingFormProps) : bool :=
  isLoading props || negb (hasSelectedShippingOptions (consignments props)).

(** The [assignItem] calls among some effects, oldest first. *)
Definition assignItemCalls (es : list Effect) : list ConsignmentAssignmentRequestBody :=
  omap (λ e, match e with AssignItem body => Some body | _ => None end) es.

(** [getDerivedStateFromProps]: the partial state to merge, or [None] for
    [null].  The state is absent before the first render. *)
Definition getDerivedStateFromProps `{ShippableItemsModule} (cart : Cart)
    (consignments : list Consignment) (state : option MultiShippingFormState)
    : option (list ShippableItem.t) :=
  match state with
  | Some s =>
      if bool_decide (getShippableItemsCount cart ≠ length (items s))
      then Some (getShippableLineItems cart consignments)
      else None
  | None => Some (getShippableLineItems cart consignments)
  end.

(** React merges the partial state into the state. *)
Definition derive `{ShippableItemsModule} (cart : Cart) (consignments : list Consignment)
    (s : MultiShippingFormState) : MultiShippingFormState :=
  match getDerivedStateFromProps cart consignments (Some s) with
  | Some its => setItems its s
  | None => s
  end.

(** [isOpen={!!itemAddingAddress}] of the address form modal. *)
Definition isAddressFormOpen (s : MultiShippingFormState) : bool :=
  bool_decide (is_Some (itemAddingAddress s)).

End MultiShippingForm.

(** ** What the specification says, in its own words *)

(** A configured default exists when the [default] property is a
    non-empty string. *)
Definition configuredDefault (f : FormField) : option string :=
  match defaultValue f with
  | Some d => if String.eqb d "" then None else Some d
  | None => None
  end.

(** Section 4.1 of the specification on custom fields: checkbox, empty
    list; dropdown, configured default if present, else empty string; date,
    parsed default if present, else empty string; all others, empty
    string. *)
Definition customFieldInitialValue (f : FormField) : FieldValue :=
  if bool_decide (fieldType f = Some DynamicFormFieldType.checkbox) then VStrings []
  else
    match configuredDefault f with
    | Some d =>
        if bool_decide (fieldType f = Some DynamicFormFieldType.date)
        then VDate (DateParse d)
        else if bool_decide (fieldType f = Some DynamicFormFieldType.dropdown)
        then VString d
        else VString ""
    | None => VString ""
    end.

(** The [customFields] object of some form values, empty when there is
    none. *)
Definition customObject (values : AddressFormValues) : gmap string FieldValue :=
  match values !! "customFields" with
  | Some (FObject o) => o
  | _ => ∅
  end.

(** [f] is the last field of its name and kind in the list: the one whose
    value the reduce leaves. *)
Definition lastOfName (fields : list FormField) (f : FormField) : Prop :=
  ∃ before after,
    fields = before ++ f :: after
    ∧ ∀ g, g ∈ after → custom g = custom f → name g ≠ name f.

(** A string without the separator of [split('-')]. *)
Fixpoint dashFree (s : string) : bool :=
  match s with
  | EmptyString => true
  | String c rest => negb (Ascii.eqb c "-"%char) && dashFree rest
  end.

(** No two different fields of the same kind share a name. *)
Definition distinctNames (fields : list FormField) : Prop :=
  ∀ f g, f ∈ fields → g ∈ fields → name f = name g → custom f = custom g → f = g.

(** The accumulator of the reduce holds an object under [customFields],
    nothing under [shouldSaveAddress], and strings everywhere else. *)
Definition formShaped (values : AddressFormValues) : Prop :=
  ∀ k v, values !! k = Some v →
    (k = "customFields" ∧ ∃ o, v = FObject o)
    ∨ (k ≠ "customFields" ∧ k ≠ "shouldSaveAddress" ∧ ∃ s, v = FLeaf (VString s)).

(** ** Sample data *)

Module Sample.

(** A runtime that renders a date as the text it was built from. *)
Definition runtime : JsRuntime :=
  {| dateToString d :=
       match d with
       | DateParse source => source
       | DateOfParts year month day =>
           String.concat "/" [default "" year; default "" month; default "" day]
       end |}.

Definition field (name : string) (custom : bool) (fieldType : string)
    (defaultValue : option string) : FormField :=
  {| name := name; custom := custom; fieldType := Some fieldType; type := None;
     defaultValue := defaultValue; required := false |}.

Definition giftWrap : FormField := field "gift_wrap" true "checkbox" None.
Definition deliveryDate : FormField := field "delivery_date" true "date" (Some "2024-01-31").
Definition city : FormField := field "city" false "text" None.
Definition birthday : FormField := field "birthday" false "date" None.
Definition stateOrProvince : FormField := field "stateOrProvince" false "text" (Some "TX").

Definition fields : list FormField := [giftWrap; city; deliveryDate; birthday].

(** A saved address that carries answers to both custom fields. *)
Definition address : Address :=
  {| addressProps :=
       <["city" := VString "Austin"]> (<["birthday" := VString "1990-07-04"]> ∅);
     customFields :=
       Some [("gift_wrap", VStrings ["yes"]); ("delivery_date", VString "2023-12-24")];
     shouldSaveAddress := Some false |}.

(** Modelled from the spec: the functions of [../address] are not among
    the sources.  [mapAddressFromFormValues] strips the form-only shaping
    and reconstitutes an address record; two addresses are semantically
    equal when their properties and custom fields agree; an address is
    valid when it answers every required system field. *)
Definition addressModule : AddressModule :=
  {| mapAddressFromFormValues form :=
       {| addressProps :=
            omap (λ v, match v with FLeaf x => Some x | _ => None end) form;
          customFields :=
            Some (match form !! "customFields" with
                  | Some (FObject o) => map_to_list o
                  | _ => []
                  end);
          shouldSaveAddress :=
            match form !! "shouldSaveAddress" with
            | Some (FBool b) => Some b
            | _ => None
            end |};
     isEqualAddress a b :=
       match b with
       | Some b =>
           bool_decide (addressProps a = addressProps b ∧ customFields a = customFields b)
       | None => false
       end;
     isValidAddress a fields _ :=
       forallb (λ f, negb (required f) || custom f
                     || match addressProps a !! name f with
                        | Some (VString s) => negb (String.eqb s "")
                        | _ => false
                        end) fields;
     getAddressFormFieldsValidationSchema fields form :=
       match form with
       | Some form =>
           forallb (λ f, negb (required f) || custom f
                         || match form !! name f with
                            | Some (FLeaf (VString s)) => negb (String.eqb s "")
                            | _ => false
                            end) fields
       | None => true
       end |}.

(** Modelled from the spec: the functions and constants of the shipping
    directory are not among the sources.  Submission needs a selected
    shipping option on every consignment; assigning an address records it
    on the item of the selection. *)
Definition shippingModule : ShippingModule :=
  {| SHIPPING_ADDRESS_FIELDS :=
       ["address1"; "address2"; "city"; "postalCode"; "stateOrProvince";
        "stateOrProvinceCode"; "countryCode"];
     hasSelectedShippingOptions l :=
       negb (bool_decide (l = []))
       && forallb (λ c, bool_decide (is_Some (selectedShippingOptionId c))) l;
     isSelectedShippingOptionValid _ := true;
     updateShippableItems its index address _ _ :=
       if (index <? 0)%Z then None
       else Some (alter (λ item, {| ShippableItem.key := ShippableItem.key item;
                                    ShippableItem.itemId := ShippableItem.itemId item;
                                    ShippableItem.assignedAddress := Some address |})
                        (Z.to_nat index) its);
     BraintreeAcceleratedCheckout := "braintreeacceleratedcheckout";
     PayPalCommerceAcceleratedCheckout := "paypalcommerceacceleratedcheckout" |}.

Definition cityField : FormField :=
  {| name := "city"; custom := false; fieldType := Some "text"; type := None;
     defaultValue := None; required := true |}.

Definition form (cityName : string) : AddressFormValues :=
  <["city" := FLeaf (VString cityName)]> ∅.

Definition austin : Address := mapAddressFromFormValues (AddressModule := addressModule) (form "Austin").
Definition boston : Address := mapAddressFromFormValues (AddressModule := addressModule) (form "Boston").
Definition nowhere : Address := mapAddressFromFormValues (AddressModule := addressModule) (form "").

(** The props of a single-address form whose last-synced address is
    [synced] and whose address form holds the city [cityName]. *)
Definition singleProps (methodId : option string) (synced : option Address)
    (cityName : string) : SingleShippingForm.SingleShippingFormProps :=
  {| SingleShippingForm.consignments := [];
     SingleShippingForm.isLoading := false;
     SingleShippingForm.methodId := methodId;
     SingleShippingForm.shippingAddress := synced;
     SingleShippingForm.shippingAutosaveDelay := None;
     SingleShippingForm.getFields := λ _, fields;
     SingleShippingForm.onUnhandledError := None;
     SingleShippingForm.isValid := true;
     SingleShippingForm.values :=
       {| SingleShippingForm.billingSameAsShipping := true;
          SingleShippingForm.addressForm := Some (form cityName);
          SingleShippingForm.orderComment := "" |} |}.

Definition multiProps : MultiShippingForm.MultiShippingFormProps :=
  {| MultiShippingForm.consignments := [];
     MultiShippingForm.isLoading := false;
     MultiShippingForm.validateAddressFields := true;
     MultiShippingForm.getFields := λ _, [cityField];
     MultiShippingForm.onUnhandledError := λ _, Fulfilled tt |}.

Definition item (key : string) : ShippableItem.t :=
  {| ShippableItem.key := key; ShippableItem.itemId := "42";
     ShippableItem.assignedAddress := None |}.

(** A multi-address form with two unassigned items, the address form
    open for the second. *)
Definition multiComponent : MultiShippingForm.Component :=
  {| MultiShippingForm.state :=
       {| MultiShippingForm.items := [item "a"; item "b"];
          MultiShippingForm.itemAddingAddress :=
            Some {| MultiShippingForm.key := "b"; MultiShippingForm.itemId := "42" |};
          MultiShippingForm.createCustomerAddressError := None |};
     MultiShippingForm.effects := [] |}.

Definition checkoutData : MultiShippingForm.CheckoutStoreSelector :=
  {| MultiShippingForm.getCart := {| lineItemIds := ["42"] |};
     MultiShippingForm.getConsignments := [] |}.

Definition country : FormField :=
  {| name := "country"; custom := false; fieldType := Some "dropdown"; type := None;
     defaultValue := Some "US"; required := false |}.

Definition giftMessage : FormField :=
  {| name := "gift_message"; custom := true; fieldType := Some "dropdown";
     type := Some "string"; defaultValue := Some "none"; required := true |}.

Definition reserved : FormField :=
  {| name := "customFields"; custom := false; fieldType := Some "text"; type := None;
     defaultValue := Some "x"; required := false |}.

Definition rendered : SingleShippingForm.RenderProps :=
  {| SingleShippingForm.shippingFormRenderTimestamp := Some 2%nat;
     SingleShippingForm.isBillingSameAsShipping := true;
     SingleShippingForm.customerMessage := "ring twice" |}.

(** Props whose field list has a custom dropdown with a default. *)
Definition giftProps : SingleShippingForm.SingleShippingFormProps :=
  {| SingleShippingForm.consignments := [];
     SingleShippingForm.isLoading := false;
     SingleShippingForm.methodId := None;
     SingleShippingForm.shippingAddress := Some address;
     SingleShippingForm.shippingAutosaveDelay := Some 0%nat;
     SingleShippingForm.getFields := λ _, [city; giftMessage];
     SingleShippingForm.onUnhandledError := None;
     SingleShippingForm.isValid := true;
     SingleShippingForm.values :=
       {| SingleShippingForm.billingSameAsShipping := false;
          SingleShippingForm.addressForm := None;
          SingleShippingForm.orderComment := "keep" |} |}.

Definition shippableItemsModule : ShippableItemsModule :=
  {| getShippableItemsCount cart := length (lineItemIds cart);
     getShippableLineItems cart _ :=
       (λ i, {| ShippableItem.key := i; ShippableItem.itemId := i;
                ShippableItem.assignedAddress := None |}) <$> lineItemIds cart |}.

End Sample.

(** Run a handler symbolically: unfold the monad and the state updates. *)
Ltac run_task :=
  cbv [mbind mret Task_bind Task_ret modify gets settle tryCatch tryFinally
       SingleShippingForm.setState SingleShippingForm.perform
       SingleShippingForm.callDebouncedUpdateAddress
       MultiShippingForm.setState MultiShippingForm.perform];
  simpl.

(** ** Mapping an address to form values *)

Section MapAddressToFormValues.
Context `{JsRuntime}.

Lemma truthy_configuredDefault f :
  truthy (defaultValue f) = true ↔ ∃ d, configuredDefault f = Some d.
Proof.
  unfold truthy, configuredDefault.
  destruct (defaultValue f) as [d|]; [destruct (String.eqb d "")|]; simpl;
    split; try done; try (by intros [? ?]); by eexists.
Qed.

Lemma configuredDefault_Some f d :
  configuredDefault f = Some d → defaultValue f = Some d ∧ truthy (defaultValue f) = true.
Proof.
  unfold configuredDefault, truthy.
  destruct (defaultValue f) as [d'|]; [|done].
  destruct (String.eqb d' "") eqn:E; [done|]. by intros [= <-].
Qed.

Lemma configuredDefault_None f :
  configuredDefault f = None → truthy (defaultValue f) = false.
Proof.
  unfold configuredDefault, truthy.
  destruct (defaultValue f) as [d'|]; [|done].
  by destruct (String.eqb d' "").
Qed.

(** The code's initialiser is the specification's table. *)
Lemma customFieldValue_spec f :
  customFieldValue (fieldType f) (defaultValue f) = customFieldInitialValue f.
Proof.
  unfold customFieldValue, customFieldInitialValue, getDefaultValue.
  case_bool_decide as Hcb; [done|].
  destruct (configuredDefault f) as [d|] eqn:Hd.
  - apply configuredDefault_Some in Hd as [Hd Ht]. rewrite Ht, Hd. simpl.
    case_bool_decide as Hdate; simpl; [done|].
    by case_bool_decide.
  - apply configuredDefault_None in Hd. rewrite Hd. simpl.
    case_bool_decide; [done|]. by rewrite andb_false_r.
Qed.

Lemma isSystemAddressFieldName_spec k :
  isSystemAddressFieldName k = true ↔ k ≠ "customFields" ∧ k ≠ "shouldSaveAddress".
Proof.
  unfold isSystemAddressFieldName.
  rewrite andb_true_iff, !negb_true_iff, !String.eqb_neq. done.
Qed.

Lemma formShaped_empty : formShaped ∅.
Proof. intros k v. by rewrite lookup_empty. Qed.

Lemma formShaped_customFields values :
  formShaped values →
  values !! "customFields" = None ∨ ∃ o, values !! "customFields" = Some (FObject o).
Proof.
  intros Hs. destruct (values !! "customFields") as [v|] eqn:E; [|by left].
  right. destruct (Hs _ _ E) as [[_ [o ->]]|[? _]]; [by exists o|done].
Qed.

Lemma formShaped_insert_object values o :
  formShaped values → formShaped (<["customFields" := FObject o]> values).
Proof.
  intros Hs k v. rewrite lookup_insert. case_decide as Hk.
  - intros [= <-]. left. split; [done|by exists o].
  - apply Hs.
Qed.

Lemma formShaped_insert_string values k s :
  k ≠ "customFields" → k ≠ "shouldSaveAddress" →
  formShaped values → formShaped (<[k := FLeaf (VString s)]> values).
Proof.
  intros Hk1 Hk2 Hs k' v. rewrite lookup_insert. case_decide as Hk.
  - intros [= <-]. subst k'. right. split_and!; [done..|by exists s].
  - apply Hs.
Qed.

(** What one step of the reduce does to a well-shaped accumulator. *)
Lemma reducer_custom address values f :
  formShaped values → custom f = true →
  ∃ o, reducer address values f
       = <["customFields" :=
             FObject (<[name f := customFieldInitialValue f]> o)]> values
       ∧ (values !! "customFields" = None ∧ o = ∅
          ∨ values !! "customFields" = Some (FObject o)).
Proof.
  intros Hs Hc. unfold reducer. rewrite Hc, customFieldValue_spec.
  destruct (formShaped_customFields _ Hs) as [E|[o E]]; rewrite E; simpl.
  - rewrite lookup_insert_eq. exists ∅. split; [|by left].
    by rewrite insert_insert_eq.
  - rewrite E. exists o. split; [done|by right].
Qed.

Lemma reducer_system address values f :
  custom f = false → isSystemAddressFieldName (name f) = true →
  reducer address values f
  = <[name f := FLeaf (VString (systemFieldValue address f))]> values.
Proof. intros Hc Hn. unfold reducer. by rewrite Hc, Hn. Qed.

Lemma reducer_skip address values f :
  custom f = false → isSystemAddressFieldName (name f) = false →
  reducer address values f = values.
Proof. intros Hc Hn. unfold reducer. by rewrite Hc, Hn. Qed.

Lemma reducer_formShaped address values f :
  formShaped values → formShaped (reducer address values f).
Proof.
  intros Hs. destruct (custom f) eqn:Hc.
  - destruct (reducer_custom address values f Hs Hc) as (o & -> & _).
    by apply formShaped_insert_object.
  - destruct (isSystemAddressFieldName (name f)) eqn:Hn.
    + rewrite reducer_system by done.
      apply isSystemAddressFieldName_spec in Hn as [? ?].
      by apply formShaped_insert_string.
    + by rewrite reducer_skip.
Qed.

Lemma foldl_reducer_formShaped address fields values :
  formShaped values → formShaped (foldl (reducer address) values fields).
Proof.
  revert values. induction fields as [|f fields IH]; intros values Hs; simpl; [done|].
  apply IH. by apply reducer_formShaped.
Qed.

(** The [customFields] property after a step depends on that property
    before it and on the field, not on the address. *)
Lemma reducer_customFields_indep address address' values values' f :
  values !! "customFields" = values' !! "customFields" →
  reducer address values f !! "customFields"
  = reducer address' values' f !! "customFields".
Proof.
  intros E. unfold reducer. destruct (custom f).
  - destruct (truthyProperty (values !! "customFields")) eqn:Ht;
      rewrite <- E, Ht; simpl.
    + rewrite <- E.
      destruct (values !! "customFields") as [[| |o]|] eqn:E1;
        rewrite ?lookup_insert_eq; congruence.
    + by rewrite !lookup_insert_eq.
  - destruct (isSystemAddressFieldName (name f)) eqn:Hn; [|done].
    apply isSystemAddressFieldName_spec in Hn as [? ?].
    by rewrite !lookup_insert_ne.
Qed.

Lemma foldl_reducer_customFields_indep address address' fields values values' :
  values !! "customFields" = values' !! "customFields" →
  foldl (reducer address) values fields !! "customFields"
  = foldl (reducer address') values' fields !! "customFields".
Proof.
  revert values values'.
  induction fields as [|f fields IH]; intros values values' E; simpl; [done|].
  apply IH. by apply reducer_customFields_indep.
Qed.

(** A step leaves every property alone but the one of its field. *)
Lemma reducer_lookup_other address values g k :
  k ≠ "customFields" → (custom g = false → name g ≠ k) →
  reducer address values g !! k = values !! k.
Proof.
  intros Hk Hg. unfold reducer. destruct (custom g).
  - destruct (truthyProperty (values !! "customFields")); simpl.
    + destruct (values !! "customFields") as [[| |o]|]; by rewrite ?lookup_insert_ne.
    + rewrite lookup_insert_eq. by rewrite !lookup_insert_ne.
  - destruct (isSystemAddressFieldName (name g)); [|done].
    rewrite lookup_insert_ne; [done|by apply Hg].
Qed.

Lemma foldl_reducer_lookup_other address fields values k :
  k ≠ "customFields" →
  (∀ g, g ∈ fields → custom g = false → name g ≠ k) →
  foldl (reducer address) values fields !! k = values !! k.
Proof.
  intros Hk. revert values.
  induction fields as [|g fields IH]; intros values Hg; simpl; [done|].
  rewrite IH.
  - apply reducer_lookup_other; [done|]. apply Hg, elem_of_cons. by left.
  - intros g' ?. apply Hg, elem_of_cons. by right.
Qed.

(** An entry of the [customFields] object survives the steps of fields
    with other names. *)
Lemma reducer_custom_entry address values g o n v :
  formShaped values →
  values !! "customFields" = Some (FObject o) → o !! n = Some v →
  (custom g = true → name g ≠ n) →
  ∃ o', reducer address values g !! "customFields" = Some (FObject o')
        ∧ o' !! n = Some v.
Proof.
  intros Hs E Hn Hg. destruct (custom g) eqn:Hc.
  - destruct (reducer_custom address values g Hs Hc) as (o1 & -> & [[E1 _]|E1]);
      [congruence|].
    rewrite E in E1. injection E1 as <-.
    eexists. rewrite lookup_insert_eq. split; [done|].
    rewrite lookup_insert_ne; [done|by apply Hg].
  - exists o. split; [|done]. rewrite <- E.
    destruct (isSystemAddressFieldName (name g)) eqn:Hsys.
    + rewrite reducer_system by done.
      apply isSystemAddressFieldName_spec in Hsys as [? ?].
      by rewrite lookup_insert_ne.
    + by rewrite reducer_skip.
Qed.

Lemma foldl_reducer_custom_entry address fields values o n v :
  formShaped values →
  values !! "customFields" = Some (FObject o) → o !! n = Some v →
  (∀ g, g ∈ fields → custom g = true → name g ≠ n) →
  ∃ o', foldl (reducer address) values fields !! "customFields" = Some (FObject o')
        ∧ o' !! n = Some v.
Proof.
  revert values o.
  induction fields as [|g fields IH]; intros values o Hs E Hn Hg; simpl; [by exists o|].
  destruct (reducer_custom_entry address values g o n v Hs E Hn) as (o' & E' & Hn').
  { apply Hg, elem_of_cons. by left. }
  apply (IH _ o'); [by apply reducer_formShaped|done..|].
  intros g' ?. apply Hg, elem_of_cons. by right.
Qed.

(** The last custom field of a name decides the entry under that name. *)
Lemma foldl_reducer_custom_last address before f after :
  custom f = true →
  (∀ g, g ∈ after → custom g = true → name g ≠ name f) →
  ∃ o, foldl (reducer address) ∅ (before ++ f :: after) !! "customFields"
       = Some (FObject o)
       ∧ o !! name f = Some (customFieldInitialValue f).
Proof.
  intros Hc Hafter. rewrite foldl_app. simpl.
  pose proof (foldl_reducer_formShaped address before ∅ formShaped_empty) as Hs.
  destruct (reducer_custom address _ f Hs Hc) as (o & E & _).
  apply (foldl_reducer_custom_entry address after _
           (<[name f := customFieldInitialValue f]> o)).
  - by apply reducer_formShaped.
  - rewrite E. apply lookup_insert_eq.
  - apply lookup_insert_eq.
  - done.
Qed.

(** The last system field of a name decides the property of that name. *)
Lemma foldl_reducer_system_last address before f after :
  custom f = false → isSystemAddressFieldName (name f) = true →
  (∀ g, g ∈ after → custom g = false → name g ≠ name f) →
  foldl (reducer address) ∅ (before ++ f :: after) !! name f
  = Some (FLeaf (VString (systemFieldValue address f))).
Proof.
  intros Hc Hsys Hafter. rewrite foldl_app. simpl.
  apply isSystemAddressFieldName_spec in Hsys as Hk. destruct Hk as [Hk _].
  rewrite foldl_reducer_lookup_other by done.
  rewrite reducer_system by done. apply lookup_insert_eq.
Qed.

Lemma backfill_lookup key values k :
  backfill key values !! k
  = match values !! k with
    | Some v => Some v
    | None => if bool_decide (k = key) then Some (FLeaf (VString "")) else None
    end.
Proof.
  unfold backfill. destruct (values !! key) as [v|] eqn:E.
  - destruct (values !! k) as [v'|] eqn:E'; [done|].
    case_bool_decide; [congruence|done].
  - rewrite lookup_insert. case_decide as Hk.
    + subst k. rewrite E. by rewrite bool_decide_eq_true_2.
    + destruct (values !! k); [done|]. by rewrite bool_decide_eq_false_2.
Qed.

(** The properties of the result, read off the reduce. *)
Lemma mapAddressToFormValues_lookup fields address k :
  k ≠ "shouldSaveAddress" →
  mapAddressToFormValues fields address !! k
  = match foldl (reducer address) ∅ fields !! k with
    | Some v => Some v
    | None =>
        if bool_decide (k = "stateOrProvince" ∨ k = "stateOrProvinceCode")
        then Some (FLeaf (VString ""))
        else None
    end.
Proof.
  intros Hk. unfold mapAddressToFormValues. rewrite !backfill_lookup.
  rewrite lookup_insert_ne by done.
  destruct (foldl (reducer address) ∅ fields !! k) as [v|]; [done|].
  repeat case_bool_decide; try done; exfalso; tauto.
Qed.

Lemma mapAddressToFormValues_shouldSaveAddress fields address :
  mapAddressToFormValues fields address !! "shouldSaveAddress"
  = Some (FBool (default true (address ≫= shouldSaveAddress))).
Proof.
  unfold mapAddressToFormValues. rewrite !backfill_lookup, lookup_insert_eq.
  by destruct address as [[? ? [|]]|].
Qed.

End MapAddressToFormValues.

(** ** Properties of the address mapper *)

Section MapperClaims.
Context `{JsRuntime}.

(** C1.  For every field list and every address, the [customFields] of
    the mapped form values do not depend on the address, and the entry
    of each custom field (the last one of its name, when a name occurs
    twice) is the value the specification's table gives for its metadata:
    an empty list for a checkbox, the configured default, parsed as a
    date for a date field, when one exists for a dropdown or date field,
    and the empty string otherwise. *)
Theorem custom_fields_reset_to_type_defaults fields address :
  (∀ address',
     mapAddressToFormValues fields address' !! "customFields"
     = mapAddressToFormValues fields address !! "customFields")
  ∧ (∀ before f after,
       fields = before ++ f :: after →
       custom f = true →
       (∀ g, g ∈ after → custom g = true → name g ≠ name f) →
       ∃ o, mapAddressToFormValues fields address !! "customFields" = Some (FObject o)
            ∧ o !! name f = Some (customFieldInitialValue f)).
Proof.
  split.
  - intros address'. rewrite !mapAddressToFormValues_lookup by done.
    by rewrite (foldl_reducer_customFields_indep address' address fields ∅ ∅).
  - intros before f after -> Hc Hafter.
    rewrite mapAddressToFormValues_lookup by done.
    destruct (foldl_reducer_custom_last address before f after Hc Hafter)
      as (o & -> & Ho).
    by exists o.
Qed.

(** C9, amended.  The mapped form values always hold a string under
    [stateOrProvince] and [stateOrProvinceCode].  It is the empty string
    when the field list has no system field of that name; when it has
    one and the address lacks the property, it is the string form of the
    (last) field's default, which is the empty string when the field has
    no non-empty default. *)
Theorem state_or_province_is_a_string fields address k :
  k = "stateOrProvince" ∨ k = "stateOrProvinceCode" →
  (∃ s, mapAddressToFormValues fields address !! k = Some (FLeaf (VString s)))
  ∧ ((∀ g, g ∈ fields → custom g = false → name g ≠ k) →
     mapAddressToFormValues fields address !! k = Some (FLeaf (VString "")))
  ∧ (∀ before f after,
       fields = before ++ f :: after →
       custom f = false → name f = k →
       (∀ g, g ∈ after → custom g = false → name g ≠ k) →
       addressField address k = None →
       mapAddressToFormValues fields address !! k
       = Some (FLeaf (VString (orEmpty (optionalToString
                 (Some (getDefaultValue (fieldType f) (defaultValue f)))))))
       ∧ (truthy (defaultValue f) = false →
          mapAddressToFormValues fields address !! k = Some (FLeaf (VString "")))).
Proof.
  intros Hk.
  assert (k ≠ "customFields" ∧ k ≠ "shouldSaveAddress") as [Hk1 Hk2].
  { destruct Hk as [-> | ->]; by split. }
  assert (bool_decide (k = "stateOrProvince" ∨ k = "stateOrProvinceCode") = true) as Hb.
  { by apply bool_decide_eq_true_2. }
  split_and!.
  - rewrite mapAddressToFormValues_lookup, Hb by done.
    pose proof (foldl_reducer_formShaped address fields ∅ formShaped_empty) as Hs.
    destruct (foldl (reducer address) ∅ fields !! k) as [v|] eqn:E; [|by eexists].
    destruct (Hs _ _ E) as [[? _]|(_ & _ & s & ->)]; [done|by exists s].
  - intros Hnone. rewrite mapAddressToFormValues_lookup, Hb by done.
    by rewrite foldl_reducer_lookup_other, lookup_empty.
  - intros before f after -> Hc Hn Hafter Ha. subst k.
    rewrite mapAddressToFormValues_lookup by done.
    rewrite foldl_reducer_system_last;
      [|done|by apply isSystemAddressFieldName_spec|done].
    unfold systemFieldValue. rewrite Ha. simpl. split; [done|].
    intros Ht. unfold getDefaultValue. rewrite Ht. simpl.
    destruct (bool_decide (fieldType f = Some DynamicFormFieldType.checkbox));
      [reflexivity|].
    unfold orEmpty at 2. rewrite Ht. reflexivity.
Qed.

(** C10.  Every property of the mapped form values other than
    [customFields] and [shouldSaveAddress] is a string;
    [shouldSaveAddress] is a boolean; a system field holds the
    [toString] of what [getValue] returns, or the empty string; and a
    custom date field with a configured default holds a [Date]. *)
Theorem system_fields_are_strings fields address :
  (∀ k v, mapAddressToFormValues fields address !! k = Some v →
          k ≠ "customFields" → k ≠ "shouldSaveAddress" →
          ∃ s, v = FLeaf (VString s))
  ∧ (∃ b, mapAddressToFormValues fields address !! "shouldSaveAddress" = Some (FBool b))
  ∧ (∀ before f after,
       fields = before ++ f :: after →
       custom f = false → isSystemAddressFieldName (name f) = true →
       (∀ g, g ∈ after → custom g = false → name g ≠ name f) →
       mapAddressToFormValues fields address !! name f
       = Some (FLeaf (VString (orEmpty (optionalToString
                 (getValue (fieldType f) (addressField address (name f))
                           (defaultValue f)))))))
  ∧ (∀ before f after d,
       fields = before ++ f :: after →
       custom f = true →
       fieldType f = Some DynamicFormFieldType.date →
       configuredDefault f = Some d →
       (∀ g, g ∈ after → custom g = true → name g ≠ name f) →
       ∃ o, mapAddressToFormValues fields address !! "customFields" = Some (FObject o)
            ∧ o !! name f = Some (VDate (DateParse d))).
Proof.
  split_and!.
  - intros k v E Hk1 Hk2. rewrite mapAddressToFormValues_lookup in E by done.
    pose proof (foldl_reducer_formShaped address fields ∅ formShaped_empty) as Hs.
    destruct (foldl (reducer address) ∅ fields !! k) as [v'|] eqn:E'.
    + injection E as <-.
      destruct (Hs _ _ E') as [[? _]|(_ & _ & s & ->)]; [done|by exists s].
    + case_bool_decide; [|done]. injection E as <-. by eexists.
  - eexists. apply mapAddressToFormValues_shouldSaveAddress.
  - intros before f after -> Hc Hsys Hafter.
    apply isSystemAddressFieldName_spec in Hsys as Hk. destruct Hk as [_ Hk].
    rewrite mapAddressToFormValues_lookup by done.
    by rewrite foldl_reducer_system_last.
  - intros before f after d -> Hc Hdate Hd Hafter.
    rewrite mapAddressToFormValues_lookup by done.
    destruct (foldl_reducer_custom_last address before f after Hc Hafter)
      as (o & -> & Ho).
    exists o. split; [done|]. rewrite Ho. f_equal.
    unfold customFieldInitialValue. rewrite Hd, Hdate.
    by rewrite bool_decide_eq_false_2, bool_decide_eq_true_2.
Qed.

End MapperClaims.

(** The custom date field of the sample keeps its configured default,
    whatever the saved address answered. *)
Lemma custom_fields_reset_witness :
  ∃ o, mapAddressToFormValues (H:=Sample.runtime) Sample.fields (Some Sample.address)
         !! "customFields" = Some (FObject o)
       ∧ o !! "delivery_date" = Some (VDate (DateParse "2024-01-31")).
Proof.
  destruct (custom_fields_reset_to_type_defaults (H:=Sample.runtime)
              Sample.fields (Some Sample.address)) as [_ Hlast].
  apply (Hlast [Sample.giftWrap; Sample.city] Sample.deliveryDate [Sample.birthday]).
  - reflexivity.
  - reflexivity.
  - intros g Hg _. apply list_elem_of_singleton in Hg. subst g. discriminate.
Defined.

(** A system field [stateOrProvince] with the default [TX], and no
    address: the form value is [TX], not the empty string. *)
Lemma state_or_province_default_counterexample :
  addressField None "stateOrProvince" = None
  ∧ mapAddressToFormValues (H:=Sample.runtime) [Sample.stateOrProvince] None
      !! "stateOrProvince" = Some (FLeaf (VString "TX"))
  ∧ mapAddressToFormValues (H:=Sample.runtime) [Sample.stateOrProvince] None
      !! "stateOrProvince" ≠ Some (FLeaf (VString "")).
Proof. split_and!; [reflexivity|by vm_compute|by vm_compute]. Qed.

Lemma state_or_province_witness :
  (∃ s, mapAddressToFormValues (H:=Sample.runtime) Sample.fields (Some Sample.address)
          !! "stateOrProvince" = Some (FLeaf (VString s)))
  ∧ mapAddressToFormValues (H:=Sample.runtime) Sample.fields (Some Sample.address)
      !! "stateOrProvince" = Some (FLeaf (VString "")).
Proof.
  destruct (state_or_province_is_a_string (H:=Sample.runtime)
              Sample.fields (Some Sample.address) "stateOrProvince")
    as (Hs & Hnone & _); [by left|].
  split; [exact Hs|]. apply Hnone.
  intros g Hg _. unfold Sample.fields in Hg.
  rewrite !elem_of_cons, elem_of_nil in Hg.
  destruct Hg as [->|[->|[->|[->|[]]]]]; discriminate.
Defined.

(** The date-typed system field of the sample holds the rendering of
    the date parsed from the address, a string. *)
Lemma system_fields_are_strings_witness :
  mapAddressToFormValues (H:=Sample.runtime) Sample.fields (Some Sample.address)
    !! "birthday" = Some (FLeaf (VString "1990/07/04")).
Proof.
  destruct (system_fields_are_strings (H:=Sample.runtime)
              Sample.fields (Some Sample.address)) as (_ & _ & Hlast & _).
  apply (Hlast [Sample.giftWrap; Sample.city; Sample.deliveryDate] Sample.birthday []).
  - reflexivity.
  - reflexivity.
  - reflexivity.
  - intros g Hg. by apply elem_of_nil in Hg.
Defined.

(** ** Properties of the single-address form *)

Section SingleShippingFormClaims.
Import SingleShippingForm.
Context `{JsRuntime} `{AddressModule} `{ShippingModule}.

Lemma shouldHaveCustomValidation_spec methodId :
  shouldHaveCustomValidation methodId = true
  ↔ ∃ m, methodId = Some m ∧ m ≠ "" ∧ m ∉ methodIdsWithoutCustomValidation.
Proof.
  unfold shouldHaveCustomValidation, truthy.
  rewrite andb_true_iff, negb_true_iff, bool_decide_eq_false.
  destruct methodId as [m|]; simpl.
  - rewrite negb_true_iff, String.eqb_neq. split.
    + intros [? ?]. by exists m.
    + by intros (m' & [= <-] & ? & ?).
  - split; [by intros [? _]|by intros (? & ? & _)].
Qed.

(** The relaxed schema accepts every form whose [customFields] is an
    object, [null] or absent. *)
Lemma getCustomFormFieldsValidationSchema_valid formFields form :
  (∀ v, form !! "customFields" = Some v → (∃ o, v = FObject o) ∨ v = FLeaf VNull) →
  getCustomFormFieldsValidationSchema formFields (Some form) = true.
Proof.
  intros Hv. unfold getCustomFormFieldsValidationSchema.
  destruct (form !! "customFields") as [v|]; [|done].
  by destruct (Hv v eq_refl) as [[o ->] | ->].
Qed.

(** C2, amended.  The schema is chosen from the payment-method identifier
    alone (the field list comes from [getFields]): with no identifier, an
    empty one or one of the exclusion list, the address-form-fields schema
    is chosen; with any other identifier the custom-form-fields schema is
    chosen, and that schema accepts every form value the mapper
    produces. *)
Theorem validation_schema_selection props formValues :
  let formFields := getFields props (formCountryCode formValues) in
  (∀ props', methodId props' = methodId props → getFields props' = getFields props →
             validationSchema props' formValues = validationSchema props formValues)
  ∧ (methodId props = None ∨ methodId props = Some "" →
     validationSchema props formValues = AddressFormFieldsValidationSchema formFields)
  ∧ (∀ m, methodId props = Some m → m ∈ methodIdsWithoutCustomValidation →
          validationSchema props formValues = AddressFormFieldsValidationSchema formFields)
  ∧ (∀ m, methodId props = Some m → m ≠ "" → m ∉ methodIdsWithoutCustomValidation →
          validationSchema props formValues = CustomFormFieldsValidationSchema formFields
          ∧ ∀ fields address,
              isValidSync (validationSchema props formValues)
                          (Some (mapAddressToFormValues fields address)) = true).
Proof.
  intros formFields. unfold validationSchema. split_and!.
  - intros props' -> ->. done.
  - intros Hm.
    destruct (shouldHaveCustomValidation (methodId props)) eqn:E; [|done].
    apply shouldHaveCustomValidation_spec in E as (m & Hm' & Hne & _).
    destruct Hm as [Hm|Hm]; congruence.
  - intros m Hm Hin.
    destruct (shouldHaveCustomValidation (methodId props)) eqn:E; [|done].
    apply shouldHaveCustomValidation_spec in E as (m' & Hm' & _ & Hnin).
    congruence.
  - intros m Hm Hne Hnin.
    assert (shouldHaveCustomValidation (methodId props) = true) as ->.
    { apply shouldHaveCustomValidation_spec. by exists m. }
    split; [done|]. intros fields address.
    apply (getCustomFormFieldsValidationSchema_valid formFields). intros v E. left.
    rewrite mapAddressToFormValues_lookup in E by done.
    pose proof (foldl_reducer_formShaped address fields ∅ formShaped_empty) as Hs.
    destruct (foldl (reducer address) ∅ fields !! "customFields") as [v'|] eqn:E';
      [|done].
    injection E as <-. by destruct (Hs _ _ E') as [[_ ?]|[? _]].
Qed.

(** An edit that is invalid, yields no address, or yields the last-synced
    address again leaves the form and its debounced function alone. *)
Lemma handleFieldChange_skips props name c :
  (isValid props = false
   ∨ addressForm (values props) = None
   ∨ ∃ form, addressForm (values props) = Some form
             ∧ isEqualAddress (mapAddressFromFormValues form) (shippingAddress props) = true) →
  let c' := (handleFieldChange props name c).2 in
  state c' = state c
  ∧ debouncedUpdateAddress c' = debouncedUpdateAddress c
  ∧ now c' = now c
  ∧ inFlight c' = inFlight c
  ∧ updateAddressCalls (effects c') = updateAddressCalls (effects c).
Proof.
  intros Hskip.
  unfold handleFieldChange, updateAddressWithFormData. destruct c as [st d n fl es].
  destruct (String.eqb name "countryCode"), (isValid props) eqn:Hv; run_task;
    unfold updateAddressCalls; rewrite <- ?app_assoc, ?omap_app, ?app_nil_r;
    try done;
    (destruct Hskip as [?| [-> | (form & -> & E)]]; [done|..]; run_task;
     rewrite ?E; run_task; rewrite ?omap_app, ?app_nil_r; done).
Qed.

(** C4.  When the form values yield no address, or yield an address that
    [isEqualAddress] finds equal to the last-synced shipping address,
    [updateAddressWithFormData] changes nothing: no state is set, nothing
    is handed to the debounced function and no effect is performed; a
    field change that ends there issues no [updateAddress] call either. *)
Theorem no_update_when_address_unchanged props includeShippingOptions name c :
  (addressForm (values props) = None
   ∨ ∃ form, addressForm (values props) = Some form
             ∧ isEqualAddress (mapAddressFromFormValues form) (shippingAddress props) = true) →
  updateAddressWithFormData props includeShippingOptions c = (Fulfilled tt, c)
  ∧ let c' := (handleFieldChange props name c).2 in
    state c' = state c
    ∧ debouncedUpdateAddress c' = debouncedUpdateAddress c
    ∧ inFlight c' = inFlight c
    ∧ updateAddressCalls (effects c') = updateAddressCalls (effects c).
Proof.
  intros Hsame. split.
  - unfold updateAddressWithFormData.
    destruct Hsame as [-> | (form & -> & E)]; simpl; [done|]. by rewrite E.
  - destruct (handleFieldChange_skips props name c) as (? & ? & _ & ? & ?); [|done].
    by right.
Qed.

Lemma seq_setState {A} g (k : Task Component A) c :
  (setState g ;; k) c
  = k {| state := g (state c);
         debouncedUpdateAddress := debouncedUpdateAddress c;
         now := now c;
         inFlight := inFlight c;
         effects := effects c |}.
Proof. reflexivity. Qed.

(** The state after [try .. finally { this.setState(..) }] is the state
    the body leaves, with the update of the [finally] block applied. *)
Lemma tryFinally_setState {A} (body : Task Component A) g c :
  state (tryFinally body (setState g) c).2 = g (state (body c).2).
Proof. unfold tryFinally, setState, modify. by destruct (body c) as [r c1]. Qed.

(** C7.  Once the awaited remote operation has settled, fulfilled or
    rejected, the loading flag of the handler is false: [isResettingAddress]
    after [handleAddressSelect] and after [onUseNewAddress],
    [isUpdatingShippingData] after the debounced update, also when it
    settles as an event of the running form. *)
Theorem loading_flags_cleared props c :
  (∀ address outcome,
     isResettingAddress (state (handleAddressSelect props address outcome c).2) = false)
  ∧ (∀ outcome,
       isResettingAddress (state (onUseNewAddress props outcome c).2) = false)
  ∧ (∀ includeShippingOptions outcome,
       isUpdatingShippingData
         (state (updateAddressSettled includeShippingOptions outcome c).2) = false)
  ∧ (∀ index outcome, is_Some (inFlight c !! index) →
       isUpdatingShippingData (state (handle (UpdateAddressSettles index outcome) c)) = false).
Proof.
  split_and!.
  - intros address outcome. unfold handleAddressSelect.
    by rewrite seq_setState, tryFinally_setState.
  - intros outcome. unfold onUseNewAddress.
    by rewrite seq_setState, tryFinally_setState.
  - intros include outcome. unfold updateAddressSettled.
    by rewrite tryFinally_setState.
  - intros index outcome [[a include] E]. simpl. rewrite E.
    unfold updateAddressSettled. by rewrite tryFinally_setState.
Qed.

(** C8.  Submission is disabled exactly when the form is loading, or an
    address update is pending, or [hasSelectedShippingOptions] does not
    hold of the consignments. *)
Theorem submit_disabled_iff props s :
  shouldDisableSubmit props s = true
  ↔ isLoading props = true
    ∨ isUpdatingShippingData s = true
    ∨ hasSelectedShippingOptions (consignments props) = false.
Proof.
  unfold shouldDisableSubmit.
  rewrite !orb_true_iff, negb_true_iff. tauto.
Qed.

(** The other side of the conflict region does not disable submission of
    an invalid form, even while it is loading. *)
Lemma shouldDisableSubmit_32f569a_invalid props s :
  isValid props = false → shouldDisableSubmit_32f569a props s = false.
Proof. intros E. unfold shouldDisableSubmit_32f569a. by rewrite E. Qed.

(** *** The debounced update *)

Lemma expired_idle {A} now (d : Debounced A) :
  pendingArgs d = None → expired now d = None.
Proof. intros E. unfold expired. by rewrite E. Qed.

Lemma expired_invoke_early {A} (now called : nat) (args : A) d :
  (now < called + wait d)%nat → expired now (invoke called args d) = None.
Proof.
  intros Hlt. unfold expired, invoke. simpl.
  destruct (Nat.leb_spec (called + wait d) now); [lia|done].
Qed.

Lemma expired_invoke_due {A} (now called : nat) (args : A) d :
  (called + wait d ≤ now)%nat → expired now (invoke called args d) = Some args.
Proof.
  intros Hle. unfold expired, invoke. simpl.
  destruct (Nat.leb_spec (called + wait d) now); [done|lia].
Qed.

Lemma advance_quiet t c :
  expired (now c `max` t) (debouncedUpdateAddress c) = None →
  advance t c = {| state := state c;
                   debouncedUpdateAddress := debouncedUpdateAddress c;
                   now := now c `max` t;
                   inFlight := inFlight c;
                   effects := effects c |}.
Proof. intros E. unfold advance, fire. simpl. by rewrite E. Qed.

Lemma advance_fires t c address includeShippingOptions :
  expired (now c `max` t) (debouncedUpdateAddress c)
  = Some (address, includeShippingOptions) →
  advance t c = {| state := state c;
                   debouncedUpdateAddress := clearPending (debouncedUpdateAddress c);
                   now := now c `max` t;
                   inFlight := inFlight c ++ [(address, includeShippingOptions)];
                   effects := effects c ++ [UpdateAddress address (Some includeShippingOptions)] |}.
Proof. intros E. unfold advance, fire. simpl. by rewrite E. Qed.

(** What a field change leaves alone, whatever it decides. *)
Lemma handleFieldChange_frame props name c :
  let c' := (handleFieldChange props name c).2 in
  now c' = now c
  ∧ inFlight c' = inFlight c
  ∧ updateAddressCalls (effects c') = updateAddressCalls (effects c)
  ∧ hasRequestedShippingOptions (state c') = hasRequestedShippingOptions (state c)
  ∧ (debouncedUpdateAddress c' = debouncedUpdateAddress c
     ∨ ∃ args, debouncedUpdateAddress c'
               = invoke (now c) args (debouncedUpdateAddress c)).
Proof.
  unfold handleFieldChange, updateAddressWithFormData. destruct c as [st d n fl es].
  destruct (String.eqb name "countryCode"), (isValid props),
    (addressForm (values props)) as [form|]; run_task;
    try destruct (isEqualAddress _ _); run_task;
    unfold updateAddressCalls; rewrite <- ?app_assoc, ?omap_app, ?app_nil_r;
    split_and!; try done; try (by left); right; by eexists.
Qed.

(** A valid edit whose address differs from the last-synced one marks the
    form as updating and hands its payload to the debounced function. *)
Lemma handleFieldChange_schedules props name form c :
  isValid props = true →
  addressForm (values props) = Some form →
  isEqualAddress (mapAddressFromFormValues form) (shippingAddress props) = false →
  let c' := (handleFieldChange props name c).2 in
  isUpdatingShippingData (state c') = true
  ∧ debouncedUpdateAddress c'
    = invoke (now c)
        (mapAddressFromFormValues form,
         withCustomFieldChange (shippingAddress props)
           (Some (mapAddressFromFormValues form))
           (bool_decide (name ∈ SHIPPING_ADDRESS_FIELDS)
            || negb (hasRequestedShippingOptions (state c))))
        (debouncedUpdateAddress c).
Proof.
  intros Hv Hf Hne.
  unfold handleFieldChange, updateAddressWithFormData. destruct c as [st d n fl es].
  rewrite Hv, Hf. simpl.
  destruct (String.eqb name "countryCode"); run_task; rewrite Hne; run_task; done.
Qed.

(** C3, amended.  Two consecutive edits, the second within the debounce
    window of the first, valid and yielding an address that differs from
    the last-synced one: when the second is handled no call has been made
    and the one pending call carries its payload; no call is made before
    the window of the second edit has run out, and exactly one call, with
    that payload, is made when it has. *)
Theorem debounced_edits_coalesce props1 name1 props2 name2 form2 (t1 t2 : nat) c :
  pendingArgs (debouncedUpdateAddress c) = None →
  (now c ≤ t1)%nat → (t1 ≤ t2)%nat → (t2 < t1 + wait (debouncedUpdateAddress c))%nat →
  isValid props2 = true →
  addressForm (values props2) = Some form2 →
  isEqualAddress (mapAddressFromFormValues form2) (shippingAddress props2) = false →
  let c2 := run [(t1, FieldChange props1 name1); (t2, FieldChange props2 name2)] c in
  let address2 := mapAddressFromFormValues form2 in
  let include2 :=
    withCustomFieldChange (shippingAddress props2) (Some address2)
      (bool_decide (name2 ∈ SHIPPING_ADDRESS_FIELDS)
       || negb (hasRequestedShippingOptions (state c))) in
  (updateAddressCalls (effects c2) = updateAddressCalls (effects c)
   ∧ pendingArgs (debouncedUpdateAddress c2) = Some (address2, include2)
   ∧ isUpdatingShippingData (state c2) = true)
  ∧ (∀ t, (t < t2 + wait (debouncedUpdateAddress c))%nat →
          updateAddressCalls (effects (advance t c2)) = updateAddressCalls (effects c))
  ∧ (∀ t, (t2 + wait (debouncedUpdateAddress c) ≤ t)%nat →
          updateAddressCalls (effects (advance t c2))
          = updateAddressCalls (effects c) ++ [(address2, Some include2)]
          ∧ pendingArgs (debouncedUpdateAddress (advance t c2)) = None
          ∧ inFlight (advance t c2) = inFlight c ++ [(address2, include2)]).
Proof.
  intros Hidle Hnow Ht Hwin Hv Hf Hne c2 address2 include2.
  (* the clock reaches the first edit: nothing is pending *)
  set (c0 := advance t1 c).
  assert (c0 = {| state := state c;
                  debouncedUpdateAddress := debouncedUpdateAddress c;
                  now := t1; inFlight := inFlight c; effects := effects c |}) as Hc0.
  { unfold c0. rewrite advance_quiet by by apply expired_idle.
    f_equal. lia. }
  (* the first edit *)
  set (c1 := (handleFieldChange props1 name1 c0).2).
  destruct (handleFieldChange_frame props1 name1 c0)
    as (Hnow1 & Hfl1 & Hcalls1 & Hreq1 & Hdeb1).
  fold c1 in Hnow1, Hfl1, Hcalls1, Hreq1, Hdeb1.
  rewrite Hc0 in Hnow1, Hfl1, Hcalls1, Hreq1, Hdeb1. simpl in *.
  assert (wait (debouncedUpdateAddress c1) = wait (debouncedUpdateAddress c)) as Hwait1.
  { destruct Hdeb1 as [-> | [args ->]]; done. }
  (* the clock reaches the second edit: the first countdown is still running *)
  set (c1' := advance t2 c1).
  assert (c1' = {| state := state c1;
                   debouncedUpdateAddress := debouncedUpdateAddress c1;
                   now := t2; inFlight := inFlight c; effects := effects c1 |}) as Hc1'.
  { unfold c1'. rewrite advance_quiet.
    - rewrite Hnow1, Hfl1. f_equal. lia.
    - rewrite Hnow1. replace (t1 `max` t2) with t2 by lia.
      destruct Hdeb1 as [-> | [args ->]];
        [by apply expired_idle|by apply expired_invoke_early]. }
  (* the second edit *)
  assert (c2 = (handleFieldChange props2 name2 c1').2) as Hc2 by reflexivity.
  clearbody c2.
  destruct (handleFieldChange_frame props2 name2 c1')
    as (Hnow2 & Hfl2 & Hcalls2 & _ & _).
  destruct (handleFieldChange_schedules props2 name2 form2 c1' Hv Hf Hne)
    as (Hupd2 & Hdeb2).
  rewrite <- Hc2 in Hnow2, Hfl2, Hcalls2, Hupd2, Hdeb2.
  rewrite Hc1' in Hnow2, Hfl2, Hcalls2, Hdeb2. simpl in *.
  rewrite Hreq1 in Hdeb2. fold address2 include2 in Hdeb2.
  split_and!.
  - congruence.
  - by rewrite Hdeb2.
  - done.
  - intros t Hlt. rewrite advance_quiet; simpl; [congruence|].
    rewrite Hdeb2, Hnow2. apply expired_invoke_early. lia.
  - intros t Hle.
    rewrite (advance_fires t c2 address2 include2); simpl.
    + rewrite Hfl2. unfold updateAddressCalls in *.
      rewrite omap_app. simpl. split_and!; [|done..].
      f_equal. congruence.
    + rewrite Hdeb2, Hnow2. apply expired_invoke_due. lia.
Qed.

(** The stale payload: when the second edit is skipped (it is invalid, or
    its address is the last-synced one again), the countdown of the first
    edit goes on and its payload is the one that fires. *)
Lemma skipped_edit_keeps_first_payload props1 name1 form1 props2 name2 (t1 t2 : nat) c :
  pendingArgs (debouncedUpdateAddress c) = None →
  (now c ≤ t1)%nat → (t1 ≤ t2)%nat → (t2 < t1 + wait (debouncedUpdateAddress c))%nat →
  isValid props1 = true →
  addressForm (values props1) = Some form1 →
  isEqualAddress (mapAddressFromFormValues form1) (shippingAddress props1) = false →
  (isValid props2 = false
   ∨ addressForm (values props2) = None
   ∨ ∃ form, addressForm (values props2) = Some form
             ∧ isEqualAddress (mapAddressFromFormValues form) (shippingAddress props2) = true) →
  let c2 := run [(t1, FieldChange props1 name1); (t2, FieldChange props2 name2)] c in
  let address1 := mapAddressFromFormValues form1 in
  let include1 :=
    withCustomFieldChange (shippingAddress props1) (Some address1)
      (bool_decide (name1 ∈ SHIPPING_ADDRESS_FIELDS)
       || negb (hasRequestedShippingOptions (state c))) in
  ∀ t, (t1 + wait (debouncedUpdateAddress c) ≤ t)%nat →
       updateAddressCalls (effects (advance t c2))
       = updateAddressCalls (effects c) ++ [(address1, Some include1)].
Proof.
  intros Hidle Hnow Ht Hwin Hv Hf Hne Hskip c2 address1 include1 t Hle.
  set (c0 := advance t1 c).
  assert (c0 = {| state := state c;
                  debouncedUpdateAddress := debouncedUpdateAddress c;
                  now := t1; inFlight := inFlight c; effects := effects c |}) as Hc0.
  { unfold c0. rewrite advance_quiet by by apply expired_idle.
    f_equal. lia. }
  set (c1 := (handleFieldChange props1 name1 c0).2).
  destruct (handleFieldChange_frame props1 name1 c0) as (Hnow1 & _ & Hcalls1 & _ & _).
  destruct (handleFieldChange_schedules props1 name1 form1 c0 Hv Hf Hne) as (_ & Hdeb1).
  fold c1 in Hnow1, Hcalls1, Hdeb1.
  rewrite Hc0 in Hnow1, Hcalls1, Hdeb1. simpl in *.
  fold address1 include1 in Hdeb1.
  set (c1' := advance t2 c1).
  assert (c1' = {| state := state c1;
                   debouncedUpdateAddress := debouncedUpdateAddress c1;
                   now := t2; inFlight := inFlight c1; effects := effects c1 |}) as Hc1'.
  { unfold c1'. rewrite advance_quiet.
    - rewrite Hnow1. f_equal. lia.
    - rewrite Hnow1, Hdeb1. apply expired_invoke_early. lia. }
  assert (c2 = (handleFieldChange props2 name2 c1').2) as Hc2 by reflexivity.
  clearbody c2.
  destruct (handleFieldChange_skips props2 name2 c1' Hskip)
    as (_ & Hdeb2 & Hnow2 & _ & Hcalls2).
  rewrite <- Hc2 in Hdeb2, Hnow2, Hcalls2.
  rewrite Hc1' in Hdeb2, Hnow2, Hcalls2. simpl in *.
  rewrite (advance_fires t c2 address1 include1); simpl.
  - unfold updateAddressCalls in *. rewrite omap_app. simpl. f_equal. congruence.
  - rewrite Hdeb2, Hnow2, Hdeb1. apply expired_invoke_due. simpl. lia.
Qed.

End SingleShippingFormClaims.

(** A method of the exclusion list gets the address-form-fields schema,
    and another method the custom-form-fields schema, not the other way
    round. *)
Lemma validation_schema_selection_counterexample :
  let excluded := Sample.singleProps (Some "braintreeacceleratedcheckout") None "Austin" in
  let other := Sample.singleProps (Some "amazonpay") None "Austin" in
  ("braintreeacceleratedcheckout"
     ∈ (SingleShippingForm.methodIdsWithoutCustomValidation (H := Sample.shippingModule))
   ∧ SingleShippingForm.validationSchema (H := Sample.shippingModule) excluded None
     = SingleShippingForm.AddressFormFieldsValidationSchema Sample.fields
   ∧ SingleShippingForm.validationSchema (H := Sample.shippingModule) excluded None
     ≠ SingleShippingForm.CustomFormFieldsValidationSchema Sample.fields)
  ∧ (("amazonpay"
        ∉ (SingleShippingForm.methodIdsWithoutCustomValidation (H := Sample.shippingModule)))
     ∧ SingleShippingForm.validationSchema (H := Sample.shippingModule) other None
       = SingleShippingForm.CustomFormFieldsValidationSchema Sample.fields
     ∧ SingleShippingForm.validationSchema (H := Sample.shippingModule) other None
       ≠ SingleShippingForm.AddressFormFieldsValidationSchema Sample.fields).
Proof.
  simpl. split_and!.
  - apply elem_of_cons. by left.
  - reflexivity.
  - discriminate.
  - unfold SingleShippingForm.methodIdsWithoutCustomValidation. simpl.
    rewrite !elem_of_cons, elem_of_nil. intros [?|[?|[]]]; discriminate.
  - reflexivity.
  - discriminate.
Qed.

Lemma validation_schema_selection_witness :
  SingleShippingForm.validationSchema (H := Sample.shippingModule)
    (Sample.singleProps (Some "paypalcommerceacceleratedcheckout") None "Austin") None
  = SingleShippingForm.AddressFormFieldsValidationSchema Sample.fields.
Proof.
  destruct (validation_schema_selection (H0 := Sample.addressModule)
              (H1 := Sample.shippingModule) (H := Sample.runtime)
              (Sample.singleProps (Some "paypalcommerceacceleratedcheckout") None "Austin")
              None) as (_ & _ & Hexcluded & _).
  apply (Hexcluded "paypalcommerceacceleratedcheckout").
  - reflexivity.
  - apply elem_of_cons. right. apply elem_of_cons. by left.
Defined.

(** The first edit changes the city to Boston; the second, within the
    window, changes it back to the last-synced Austin.  The second edit
    hands nothing to the debounced function, so the one call that fires
    carries the payload of the first edit. *)
Lemma debounced_edits_counterexample :
  let first := Sample.singleProps None (Some Sample.austin) "Boston" in
  let second := Sample.singleProps None (Some Sample.austin) "Austin" in
  let c := SingleShippingForm.construct second in
  let c2 :=
    SingleShippingForm.run (H := Sample.addressModule) (H0 := Sample.shippingModule)
      [(0%nat, SingleShippingForm.FieldChange first "city");
       (100%nat, SingleShippingForm.FieldChange second "city")] c in
  SingleShippingForm.isValid first = true
  ∧ SingleShippingForm.isValid second = true
  ∧ (100 < 0 + wait (SingleShippingForm.debouncedUpdateAddress c))%nat
  ∧ SingleShippingForm.addressForm (SingleShippingForm.values second)
    = Some (Sample.form "Austin")
  ∧ SingleShippingForm.updateAddressCalls
      (SingleShippingForm.effects (SingleShippingForm.advance 5000 c2))
    = [(Sample.boston, Some true)]
  ∧ ∀ includeShippingOptions,
      SingleShippingForm.updateAddressCalls
        (SingleShippingForm.effects (SingleShippingForm.advance 5000 c2))
      ≠ [(mapAddressFromFormValues (AddressModule := Sample.addressModule)
            (Sample.form "Austin"), includeShippingOptions)].
Proof.
  intros first second c c2.
  assert (SingleShippingForm.updateAddressCalls
            (SingleShippingForm.effects (SingleShippingForm.advance 5000 c2))
          = [(Sample.boston, Some true)]) as Hcalls by by vm_compute.
  split_and!; [reflexivity|reflexivity|vm_compute; lia|reflexivity|exact Hcalls|].
  intros include. rewrite Hcalls. intros Heq.
  assert (addressProps Sample.boston !! "city"
          = addressProps (mapAddressFromFormValues (AddressModule := Sample.addressModule)
                            (Sample.form "Austin")) !! "city") as Hcity by congruence.
  vm_compute in Hcity. discriminate.
Qed.

(** Calls that have been issued are not limited: an edit made after the
    first call has fired, while that call has not settled, leads to a second
    call in flight. *)
Lemma two_updates_in_flight :
  let first := Sample.singleProps None (Some Sample.austin) "Boston" in
  let second := Sample.singleProps None (Some Sample.austin) "Dallas" in
  let c :=
    SingleShippingForm.advance 4000
      (SingleShippingForm.run (H := Sample.addressModule) (H0 := Sample.shippingModule)
         [(0%nat, SingleShippingForm.FieldChange first "city");
          (2000%nat, SingleShippingForm.FieldChange second "city")]
         (SingleShippingForm.construct first)) in
  length (SingleShippingForm.inFlight c) = 2%nat
  ∧ pendingArgs (SingleShippingForm.debouncedUpdateAddress c) = None.
Proof. by vm_compute. Qed.

Lemma debounced_edits_coalesce_witness :
  let first := Sample.singleProps None (Some Sample.austin) "Boston" in
  let second := Sample.singleProps None (Some Sample.austin) "Dallas" in
  let c2 :=
    SingleShippingForm.run (H := Sample.addressModule) (H0 := Sample.shippingModule)
      [(0%nat, SingleShippingForm.FieldChange first "city");
       (100%nat, SingleShippingForm.FieldChange second "city")]
      (SingleShippingForm.construct second) in
  SingleShippingForm.updateAddressCalls
    (SingleShippingForm.effects (SingleShippingForm.advance 5000 c2))
  = [(mapAddressFromFormValues (AddressModule := Sample.addressModule)
        (Sample.form "Dallas"), Some true)].
Proof.
  intros first second c2.
  destruct (debounced_edits_coalesce (H0 := Sample.addressModule)
              (H1 := Sample.shippingModule)
              first "city" second "city" (Sample.form "Dallas") 0 100
              (SingleShippingForm.construct second))
    as (_ & _ & Hdue).
  - reflexivity.
  - simpl. lia.
  - lia.
  - simpl. unfold SingleShippingForm.SHIPPING_AUTOSAVE_DELAY. lia.
  - reflexivity.
  - reflexivity.
  - by vm_compute.
  - destruct (Hdue 5000%nat) as (Hcalls & _).
    + simpl. unfold SingleShippingForm.SHIPPING_AUTOSAVE_DELAY. lia.
    + exact Hcalls.
Defined.

Lemma no_update_when_address_unchanged_witness :
  let props := Sample.singleProps None (Some Sample.austin) "Austin" in
  let c := SingleShippingForm.construct props in
  SingleShippingForm.updateAddressWithFormData (H := Sample.addressModule) props true c
  = (Fulfilled tt, c).
Proof.
  intros props c.
  apply (no_update_when_address_unchanged (H0 := Sample.addressModule)
           (H1 := Sample.shippingModule) props true "city" c).
  right. exists (Sample.form "Austin"). split; [reflexivity|by vm_compute].
Defined.

Lemma loading_flags_cleared_witness :
  let props := Sample.singleProps None (Some Sample.austin) "Boston" in
  let c :=
    SingleShippingForm.advance 2000
      (SingleShippingForm.run (H := Sample.addressModule) (H0 := Sample.shippingModule)
         [(0%nat, SingleShippingForm.FieldChange props "city")]
         (SingleShippingForm.construct props)) in
  SingleShippingForm.isUpdatingShippingData (SingleShippingForm.state c) = true
  ∧ SingleShippingForm.isUpdatingShippingData
      (SingleShippingForm.state
         (SingleShippingForm.handle (H := Sample.addressModule)
            (H0 := Sample.shippingModule)
            (SingleShippingForm.UpdateAddressSettles 0
               (Rejected (ThrowError (SdkError "timeout")))) c)) = false.
Proof.
  intros props c. split; [by vm_compute|].
  destruct (loading_flags_cleared (H := Sample.runtime) (H0 := Sample.addressModule)
              (H1 := Sample.shippingModule) props c) as (_ & _ & _ & Hsettles).
  apply Hsettles. vm_compute. by eexists.
Defined.

(** ** Properties of the multi-address form *)

Section MultiShippingFormClaims.
Import MultiShippingForm.
Context `{AddressModule} `{ShippingModule}.

(** What [syncItems] leaves: the items [updateShippableItems] returns, or
    the current ones when it returns nothing. *)
Lemma syncItems_spec itemKey address data c :
  syncItems itemKey address data c
  = (Fulfilled tt,
     {| state :=
          setItems
            (default (items (state c))
               (updateShippableItems (items (state c))
                  (findIndex (λ item, String.eqb (ShippableItem.key item) itemKey)
                             (items (state c)))
                  address (getCart data) (getConsignments data)))
            (state c);
        effects := effects c |}).
Proof.
  unfold syncItems. destruct c as [[its adding err] es]. run_task.
  by destruct (updateShippableItems _ _ _ _ _).
Qed.

(** C5.  Selecting an address that [isValidAddress] rejects for the
    fields of its country calls [onUnhandledError] with an
    [AssignItemInvalidAddressError], makes no [assignItem] call and leaves
    the state, the item list with it, as it was. *)
Theorem invalid_address_is_not_assigned props address itemId itemKey outcome c :
  isValidAddress address (getFields props (countryCodeOf (Some address)))
                 (validateAddressFields props) = false →
  let c' := (handleSelectAddress props address itemId itemKey outcome c).2 in
  effects c' = effects c ++ [UnhandledError AssignItemInvalidAddressError]
  ∧ assignItemCalls (effects c') = assignItemCalls (effects c)
  ∧ state c' = state c.
Proof.
  intros Hinvalid. unfold handleSelectAddress, callOnUnhandledError.
  rewrite Hinvalid. run_task. split_and!; [done| |done].
  unfold assignItemCalls. rewrite omap_app. simpl. by rewrite app_nil_r.
Qed.


End MultiShippingFormClaims.

Lemma invalid_address_is_not_assigned_witness :
  let c' :=
    (MultiShippingForm.handleSelectAddress (H := Sample.addressModule)
       (H0 := Sample.shippingModule) Sample.multiProps Sample.nowhere "42" "a"
       (Fulfilled Sample.checkoutData) Sample.multiComponent).2 in
  MultiShippingForm.effects c'
  = [MultiShippingForm.UnhandledError AssignItemInvalidAddressError]
  ∧ MultiShippingForm.assignItemCalls (MultiShippingForm.effects c') = []
  ∧ MultiShippingForm.state c' = MultiShippingForm.state Sample.multiComponent.
Proof.
  apply (invalid_address_is_not_assigned (H := Sample.addressModule)
           (H0 := Sample.shippingModule) Sample.multiProps Sample.nowhere "42" "a"
           (Fulfilled Sample.checkoutData) Sample.multiComponent).
  by vm_compute.
Defined.


(** ** More on the address mapper *)

Section MapperExtras.
Context `{JsRuntime}.

Lemma orEmpty_Some s : orEmpty (Some s) = s.
Proof.
  unfold orEmpty, truthy. simpl.
  destruct (String.eqb_spec s ""); simpl; congruence.
Qed.

Lemma customObject_lookup values o :
  values !! "customFields" = Some (FObject o) → customObject values = o.
Proof. intros E. unfold customObject. by rewrite E. Qed.

Lemma customObject_None values :
  values !! "customFields" = None → customObject values = ∅.
Proof. intros E. unfold customObject. by rewrite E. Qed.

(** The step of a custom field, with the object it extends named. *)
Lemma reducer_custom_object address values f :
  formShaped values → custom f = true →
  reducer address values f
  = <["customFields" :=
        FObject (<[name f := customFieldInitialValue f]> (customObject values))]> values.
Proof.
  intros Hs Hc.
  destruct (reducer_custom address values f Hs Hc) as (o & -> & [[E ->]|E]).
  - by rewrite customObject_None.
  - by rewrite (customObject_lookup _ o).
Qed.

Lemma reducer_not_custom_customFields address values f :
  custom f = false →
  reducer address values f !! "customFields" = values !! "customFields".
Proof.
  intros Hc. destruct (isSystemAddressFieldName (name f)) eqn:Hn.
  - rewrite reducer_system by done.
    apply isSystemAddressFieldName_spec in Hn as [? _]. by rewrite lookup_insert_ne.
  - by rewrite reducer_skip.
Qed.

Lemma formShaped_foldl address fields :
  formShaped (foldl (reducer address) ∅ fields).
Proof. apply foldl_reducer_formShaped, formShaped_empty. Qed.

Lemma foldl_customFields_None address fields :
  foldl (reducer address) ∅ fields !! "customFields" = None
  ↔ ∀ f, f ∈ fields → custom f = false.
Proof.
  induction fields as [|x l IH] using rev_ind.
  - split; [|done]. intros _ f Hf. by apply elem_of_nil in Hf.
  - rewrite foldl_snoc. destruct (custom x) eqn:Hc.
    + rewrite reducer_custom_object by (done || apply formShaped_foldl).
      rewrite lookup_insert_eq. split; [done|].
      intros Hall. specialize (Hall x). rewrite Hc in Hall.
      assert (true = false) by (apply Hall, elem_of_app; right; by apply list_elem_of_singleton).
      done.
    + rewrite reducer_not_custom_customFields by done. rewrite IH. split.
      * intros Hall f [Hf|Hf]%elem_of_app; [by apply Hall|].
        apply list_elem_of_singleton in Hf. by subst.
      * intros Hall f Hf. apply Hall, elem_of_app. by left.
Qed.

Lemma foldl_customObject_keys address fields k :
  is_Some (customObject (foldl (reducer address) ∅ fields) !! k)
  ↔ ∃ f, f ∈ fields ∧ custom f = true ∧ name f = k.
Proof.
  induction fields as [|x l IH] using rev_ind.
  - simpl. unfold customObject. rewrite !lookup_empty. split.
    + by intros [? ?].
    + intros (f & Hf & _). by apply elem_of_nil in Hf.
  - rewrite foldl_snoc. destruct (custom x) eqn:Hc.
    + rewrite reducer_custom_object by (done || apply formShaped_foldl).
      rewrite (customObject_lookup _ _ (lookup_insert_eq _ _ _)).
      rewrite lookup_insert. case_decide as Hk.
      * split; [|by eexists]. intros _. exists x. split_and!; [|done..].
        apply elem_of_app. right. by apply list_elem_of_singleton.
      * rewrite IH. split.
        -- intros (f & Hf & ? & ?). exists f. split_and!; [|done..].
           apply elem_of_app. by left.
        -- intros (f & [Hf|Hf]%elem_of_app & Hcf & Hnf).
           ++ by exists f.
           ++ apply list_elem_of_singleton in Hf. by subst.
    + unfold customObject at 1.
      rewrite reducer_not_custom_customFields by done.
      fold (customObject (foldl (reducer address) ∅ l)). rewrite IH. split.
      * intros (f & Hf & ? & ?). exists f. split_and!; [|done..].
        apply elem_of_app. by left.
      * intros (f & [Hf|Hf]%elem_of_app & Hcf & Hnf).
        -- by exists f.
        -- apply list_elem_of_singleton in Hf. subst. congruence.
Qed.

Lemma foldl_system_keys address fields k :
  k ≠ "customFields" →
  is_Some (foldl (reducer address) ∅ fields !! k)
  ↔ ∃ f, f ∈ fields ∧ custom f = false
         ∧ isSystemAddressFieldName (name f) = true ∧ name f = k.
Proof.
  intros Hk. induction fields as [|x l IH] using rev_ind.
  - simpl. rewrite lookup_empty. split.
    + by intros [? ?].
    + intros (f & Hf & _). by apply elem_of_nil in Hf.
  - rewrite foldl_snoc.
    assert ((∃ f, f ∈ l ++ [x] ∧ custom f = false
                  ∧ isSystemAddressFieldName (name f) = true ∧ name f = k)
            ↔ (custom x = false ∧ isSystemAddressFieldName (name x) = true ∧ name x = k)
              ∨ ∃ f, f ∈ l ∧ custom f = false
                     ∧ isSystemAddressFieldName (name f) = true ∧ name f = k) as ->.
    { split.
      - intros (f & [Hf|Hf]%elem_of_app & Hrest).
        + right. by exists f.
        + apply list_elem_of_singleton in Hf. subst. by left.
      - intros [Hx|(f & Hf & Hrest)].
        + exists x. split; [|done]. apply elem_of_app. right.
          by apply list_elem_of_singleton.
        + exists f. split; [|done]. apply elem_of_app. by left. }
    rewrite <- IH.
    destruct (custom x) eqn:Hc.
    + rewrite reducer_lookup_other by (done || congruence).
      split; [by right|]. by intros [(? & _)|?].
    + destruct (isSystemAddressFieldName (name x)) eqn:Hn.
      * rewrite reducer_system by done. rewrite lookup_insert.
        case_decide as Hx.
        -- split; [by left|by eexists].
        -- split; [by right|]. by intros [(_ & _ & ?)|?].
      * rewrite reducer_skip by done.
        split; [by right|]. by intros [(_ & ? & _)|?].
Qed.

(** Either there is no custom field and no [customFields], or there is an
    object whose keys are the names of the custom fields. *)
Lemma custom_fields_keys_aux fields address :
  (mapAddressToFormValues fields address !! "customFields" = None
   ∧ ∀ f, f ∈ fields → custom f = false)
  ∨ ∃ o, mapAddressToFormValues fields address !! "customFields" = Some (FObject o)
         ∧ ∀ k, is_Some (o !! k) ↔ ∃ f, f ∈ fields ∧ custom f = true ∧ name f = k.
Proof.
  rewrite mapAddressToFormValues_lookup by done.
  rewrite bool_decide_eq_false_2 by (by intros [?|?]).
  destruct (formShaped_customFields _ (formShaped_foldl address fields)) as [E|[o E]].
  - left. rewrite E. split; [done|].
    by apply (proj1 (foldl_customFields_None address fields)).
  - right. exists o. rewrite E. split; [done|]. intros k.
    rewrite <- (foldl_customObject_keys address). by rewrite (customObject_lookup _ o).
Qed.

(** X1.  The [customFields] object exists exactly when the field list has
    a custom field, and its keys are exactly the names of the custom
    fields: no key of an earlier field list or of the address survives. *)
Theorem custom_fields_keys fields address :
  (mapAddressToFormValues fields address !! "customFields" = None
   ↔ ∀ f, f ∈ fields → custom f = false)
  ∧ (∀ v, mapAddressToFormValues fields address !! "customFields" = Some v →
          ∃ o, v = FObject o
               ∧ ∀ k, is_Some (o !! k) ↔ ∃ f, f ∈ fields ∧ custom f = true ∧ name f = k).
Proof.
  rewrite mapAddressToFormValues_lookup by done.
  destruct (foldl (reducer address) ∅ fields !! "customFields") as [v|] eqn:E.
  - split.
    + split; [done|]. intros Hall.
      apply (proj2 (foldl_customFields_None address fields)) in Hall. congruence.
    + intros v' [= <-].
      destruct (formShaped_customFields _ (formShaped_foldl address fields))
        as [E'|[o E']]; [congruence|].
      rewrite E in E'. injection E' as ->. exists o. split; [done|].
      intros k. rewrite <- (foldl_customObject_keys address).
      by rewrite (customObject_lookup _ o).
  - rewrite bool_decide_eq_false_2 by (by intros [?|?]).
    split; [|done]. split; [|done]. intros _.
    by apply (proj1 (foldl_customFields_None address fields)).
Qed.

(** X2.  The properties of the mapped form values are [shouldSaveAddress],
    [stateOrProvince], [stateOrProvinceCode], [customFields] when there is
    a custom field, and the names of the system fields; nothing else of
    the address is copied. *)
Theorem mapped_properties fields address k :
  is_Some (mapAddressToFormValues fields address !! k)
  ↔ k = "shouldSaveAddress" ∨ k = "stateOrProvince" ∨ k = "stateOrProvinceCode"
    ∨ (k = "customFields" ∧ ∃ f, f ∈ fields ∧ custom f = true)
    ∨ ∃ f, f ∈ fields ∧ custom f = false
           ∧ isSystemAddressFieldName (name f) = true ∧ name f = k.
Proof.
  destruct (decide (k = "shouldSaveAddress")) as [->|Hk1].
  { rewrite mapAddressToFormValues_shouldSaveAddress. split; [by left|by eexists]. }
  rewrite mapAddressToFormValues_lookup by done.
  destruct (decide (k = "customFields")) as [->|Hk2].
  - rewrite bool_decide_eq_false_2 by (by intros [?|?]).
    destruct (foldl (reducer address) ∅ fields !! "customFields") as [v|] eqn:E.
    + split; [|by eexists]. intros _. right. right. right. left. split; [done|].
      destruct (decide (Exists (λ f, custom f = true) fields)) as [Hex|Hnex].
      * apply Exists_exists in Hex as (f & Hf & Hc). by exists f.
      * assert (∀ f, f ∈ fields → custom f = false) as Hall.
        { intros f Hf. destruct (custom f) eqn:Hc; [|done].
          exfalso. apply Hnex, Exists_exists. by exists f. }
        apply (proj2 (foldl_customFields_None address fields)) in Hall. congruence.
    + pose proof (proj1 (foldl_customFields_None address fields) E) as Hall.
      split; [by intros [? ?]|].
      intros [?|[?|[?|[(_ & f & Hf & Hc)|(f & Hf & _ & Hn & Hk)]]]]; try done.
      * rewrite (Hall f Hf) in Hc. done.
      * subst. by apply isSystemAddressFieldName_spec in Hn as [? _].
  - destruct (foldl (reducer address) ∅ fields !! k) as [v|] eqn:E.
    + split; [|by eexists]. intros _. do 4 right.
      apply (foldl_system_keys address fields k Hk2). by rewrite E.
    + case_bool_decide as Hb.
      * split; [|by eexists]. intros _. destruct Hb; [right; by left|do 2 right; by left].
      * split; [by intros [? ?]|].
        intros [?|[?|[?|[(? & _)|Hf]]]]; try done; try (destruct Hb; by auto).
        apply (foldl_system_keys address fields k Hk2) in Hf. rewrite E in Hf.
        by destruct Hf.
Qed.

End MapperExtras.

Section MapperOrder.
Context `{JsRuntime}.

Lemma foldl_reducer_filter address fields values :
  foldl (reducer address) values
    (filter (λ f, custom f = true ∨ isSystemAddressFieldName (name f) = true) fields)
  = foldl (reducer address) values fields.
Proof.
  revert values. induction fields as [|f fields IH]; intros values; [done|].
  rewrite filter_cons. case_decide as Hf; simpl; [done|].
  rewrite reducer_skip; [done| |].
  - destruct (custom f); [|done]. exfalso. apply Hf. by left.
  - destruct (isSystemAddressFieldName (name f)); [|done]. exfalso. apply Hf. by right.
Qed.

(** X3.  A non-custom field named [customFields] or [shouldSaveAddress]
    is ignored: the result is the one of the field list without such
    fields, so no field can overwrite the nested object or the flag. *)
Theorem reserved_names_are_ignored fields address :
  mapAddressToFormValues
    (filter (λ f, custom f = true ∨ isSystemAddressFieldName (name f) = true) fields)
    address
  = mapAddressToFormValues fields address.
Proof. unfold mapAddressToFormValues. by rewrite foldl_reducer_filter. Qed.

Lemma customObject_insert values o :
  customObject (<["customFields" := FObject o]> values) = o.
Proof. apply customObject_lookup, lookup_insert_eq. Qed.

Lemma customObject_insert_ne values k v :
  k ≠ "customFields" → customObject (<[k := v]> values) = customObject values.
Proof. intros Hk. unfold customObject. by rewrite lookup_insert_ne. Qed.

(** Two steps commute unless they write the same entry. *)
Lemma reducer_commute address values f g :
  formShaped values →
  (name f = name g → custom f = custom g → f = g) →
  reducer address (reducer address values f) g
  = reducer address (reducer address values g) f.
Proof.
  intros Hs Hfg.
  pose proof (reducer_formShaped address values f Hs) as Hsf.
  pose proof (reducer_formShaped address values g Hs) as Hsg.
  destruct (custom f) eqn:Hcf, (custom g) eqn:Hcg.
  - rewrite (reducer_custom_object address _ g Hsf Hcg).
    rewrite (reducer_custom_object address _ f Hsg Hcf).
    rewrite (reducer_custom_object address _ f Hs Hcf).
    rewrite (reducer_custom_object address _ g Hs Hcg).
    rewrite !customObject_insert, !insert_insert_eq.
    destruct (decide (name f = name g)) as [Hn|Hn].
    + by rewrite (Hfg Hn eq_refl).
    + by rewrite (insert_insert_ne _ (name f) (name g)).
  - rewrite (reducer_custom_object address _ f Hsg Hcf).
    rewrite (reducer_custom_object address _ f Hs Hcf).
    destruct (isSystemAddressFieldName (name g)) eqn:Hn.
    + rewrite !(reducer_system address _ g) by done.
      apply isSystemAddressFieldName_spec in Hn as [Hn _].
      rewrite customObject_insert_ne by done.
      by rewrite insert_insert_ne.
    + by rewrite !(reducer_skip address _ g).
  - rewrite (reducer_custom_object address _ g Hsf Hcg).
    rewrite (reducer_custom_object address _ g Hs Hcg).
    destruct (isSystemAddressFieldName (name f)) eqn:Hn.
    + rewrite !(reducer_system address _ f) by done.
      apply isSystemAddressFieldName_spec in Hn as [Hn _].
      rewrite customObject_insert_ne by done.
      by rewrite insert_insert_ne.
    + by rewrite !(reducer_skip address _ f).
  - destruct (isSystemAddressFieldName (name f)) eqn:Hnf,
             (isSystemAddressFieldName (name g)) eqn:Hng;
      rewrite ?(reducer_system address _ f), ?(reducer_system address _ g),
              ?(reducer_skip address _ f), ?(reducer_skip address _ g) by done;
      try done.
    destruct (decide (name f = name g)) as [Hn|Hn].
    + by rewrite (Hfg Hn eq_refl).
    + by rewrite insert_insert_ne.
Qed.

Lemma foldl_reducer_Permutation address fields fields' :
  fields ≡ₚ fields' → distinctNames fields →
  ∀ values, formShaped values →
            foldl (reducer address) values fields
            = foldl (reducer address) values fields'.
Proof.
  induction 1 as [|x l l' Hp IH|x y l|l l' l'' Hp1 IH1 Hp2 IH2];
    intros Hd values Hs; simpl.
  - done.
  - apply IH; [|by apply reducer_formShaped].
    intros f g Hf Hg. apply Hd; apply elem_of_cons; by right.
  - f_equal. apply reducer_commute; [done|].
    apply Hd; rewrite !elem_of_cons; auto.
  - rewrite IH1 by done. apply IH2; [|done].
    intros f g Hf Hg. apply Hd; by rewrite Hp1.
Qed.

(** X4.  When no two different fields of the same kind share a name, the
    order of the field list does not matter. *)
Theorem field_order_is_irrelevant fields fields' address :
  fields ≡ₚ fields' → distinctNames fields →
  mapAddressToFormValues fields address = mapAddressToFormValues fields' address.
Proof.
  intros Hp Hd. unfold mapAddressToFormValues.
  by rewrite (foldl_reducer_Permutation address fields fields' Hp Hd ∅ formShaped_empty).
Qed.

Lemma split_dash_not_nil s : split_dash s ≠ [].
Proof.
  destruct s as [|c rest]; simpl; [done|].
  destruct (Ascii.eqb c "-"); [done|]. by destruct (split_dash rest).
Qed.

Lemma split_dash_app a b :
  dashFree a = true →
  split_dash (String.append a (String "-" b)) = a :: split_dash b.
Proof.
  induction a as [|c a IH]; simpl; [done|].
  intros [Hc Ha]%andb_true_iff. apply negb_true_iff in Hc. rewrite Hc.
  by rewrite (IH Ha).
Qed.

Lemma split_dash_dashFree a : dashFree a = true → split_dash a = [a].
Proof.
  induction a as [|c a IH]; simpl; [done|].
  intros [Hc Ha]%andb_true_iff. apply negb_true_iff in Hc. rewrite Hc.
  by rewrite (IH Ha).
Qed.

Lemma lastOfName_system_lookup address fields f :
  lastOfName fields f → custom f = false → isSystemAddressFieldName (name f) = true →
  mapAddressToFormValues fields address !! name f
  = Some (FLeaf (VString (systemFieldValue address f))).
Proof.
  intros (before & after & -> & Hafter) Hc Hsys.
  apply isSystemAddressFieldName_spec in Hsys as Hk. destruct Hk as [_ Hk].
  rewrite mapAddressToFormValues_lookup by done.
  rewrite foldl_reducer_system_last; [done..|].
  intros g Hg Hcg. apply Hafter; [done|congruence].
Qed.


(** X6.  A date-typed system field: a value [y-m-d] of the address is
    parsed from its first three dash-separated parts; an empty string
    gives the empty string and the default is not used; a missing or
    [null] value gives the field's configured default, parsed as a date. *)
Theorem date_system_field fields address f :
  lastOfName fields f → custom f = false → isSystemAddressFieldName (name f) = true →
  fieldType f = Some DynamicFormFieldType.date →
  (∀ y m d,
     dashFree y = true → dashFree m = true → dashFree d = true →
     addressField address (name f)
     = Some (VString (String.append y (String "-" (String.append m (String "-" d))))) →
     mapAddressToFormValues fields address !! name f
     = Some (FLeaf (VString (dateToString (DateOfParts (Some y) (Some m) (Some d))))))
  ∧ (addressField address (name f) = Some (VString "") →
     mapAddressToFormValues fields address !! name f = Some (FLeaf (VString "")))
  ∧ (∀ d, addressField address (name f) = None
          ∨ addressField address (name f) = Some VNull →
          configuredDefault f = Some d →
          mapAddressToFormValues fields address !! name f
          = Some (FLeaf (VString (dateToString (DateParse d))))).
Proof.
  intros Hlast Hc Hsys Hdate.
  rewrite (lastOfName_system_lookup address fields f Hlast Hc Hsys).
  unfold systemFieldValue. split_and!.
  - intros y m d Hy Hm Hd ->. unfold getValue.
    rewrite bool_decide_eq_true_2 by done.
    assert (String.eqb (String.append y (String "-" (String.append m (String "-" d)))) ""
            = false) as ->.
    { apply String.eqb_neq. by destruct y. }
    simpl. rewrite split_dash_app, split_dash_app, split_dash_dashFree by done.
    simpl. by rewrite orEmpty_Some.
  - intros ->. unfold getValue. by rewrite bool_decide_eq_true_2.
  - intros d Hmissing Hd.
    apply configuredDefault_Some in Hd as [Hd Ht].
    assert (getValue (fieldType f) (addressField address (name f)) (defaultValue f)
            = Some (VDate (DateParse d))) as ->.
    { unfold getValue, getDefaultValue.
      destruct Hmissing as [-> | ->]; rewrite Ht, Hd, bool_decide_eq_true_2 by done;
        done. }
    simpl. by rewrite orEmpty_Some.
Qed.

End MapperOrder.

(** ** More on the single-address form *)

Section SingleShippingFormExtras.
Import SingleShippingForm.
Context `{JsRuntime} `{AddressModule} `{ShippingModule}.

Lemma resetValue_spec field :
  resetValue field
  = if bool_decide (fieldType field = Some "checkbox") then VStrings [] else VString "".
Proof. unfold resetValue. by repeat case_bool_decide. Qed.

(** The reset loop rewrites the [customFields] object and nothing else. *)
Lemma resetCustomFields_object fields values o :
  values !! "customFields" = Some (FObject o) →
  resetCustomFields fields values
  = <["customFields" :=
        FObject (foldl (λ o field, <[name field := resetValue field]> o) o
                       (filter (λ field, custom field = true) fields))]> values.
Proof.
  intros E. unfold resetCustomFields. rewrite E. simpl.
  generalize (filter (λ field, custom field = true) fields). intros l.
  revert values o E. induction l as [|f l IH]; intros values o E; simpl.
  - by rewrite insert_id.
  - rewrite E. rewrite (IH _ (<[name f := resetValue f]> o)) by apply lookup_insert_eq.
    by rewrite insert_insert_eq.
Qed.

Lemma foldl_reset_keys (l : list FormField) (o : gmap string FieldValue) k :
  is_Some (foldl (λ o field, <[name field := resetValue field]> o) o l !! k)
  ↔ is_Some (o !! k) ∨ ∃ f, f ∈ l ∧ name f = k.
Proof.
  revert o. induction l as [|f l IH]; intros o; simpl.
  - split; [by left|]. intros [?|(f & Hf & _)]; [done|]. by apply elem_of_nil in Hf.
  - rewrite IH, lookup_insert. split.
    + intros [Ho|(g & Hg & Hk)].
      * case_decide; [|by left]. right. exists f. split; [|done]. apply elem_of_cons. by left.
      * right. exists g. split; [|done]. apply elem_of_cons. by right.
    + intros [Ho|(g & [->|Hg]%elem_of_cons & Hk)].
      * left. by case_decide.
      * left. rewrite decide_True; done.
      * right. by exists g.
Qed.

Lemma foldl_reset_last (before after : list FormField) f (o : gmap string FieldValue) :
  (∀ g, g ∈ after → name g ≠ name f) →
  foldl (λ o field, <[name field := resetValue field]> o) o (before ++ f :: after)
    !! name f = Some (resetValue f).
Proof.
  intros Hafter. rewrite foldl_app. simpl.
  generalize (foldl (λ o field, <[name field := resetValue field]> o) o before).
  intros o'. assert (<[name f := resetValue f]> o' !! name f = Some (resetValue f)) as E
    by apply lookup_insert_eq.
  revert E. generalize (<[name f := resetValue f]> o'). clear o'.
  induction after as [|g after IH]; intros o' E; simpl; [done|].
  apply IH.
  - intros g' Hg'. apply Hafter, elem_of_cons. by right.
  - rewrite lookup_insert_ne; [done|]. apply Hafter, elem_of_cons. by left.
Qed.

(** The entry of a custom field after the reset. *)
Lemma reset_fields_aux fields address f :
  lastOfName fields f → custom f = true →
  ∃ o, resetCustomFields fields (mapAddressToFormValues fields address) !! "customFields"
       = Some (FObject o)
       ∧ o !! name f
         = Some (if bool_decide (fieldType f = Some "checkbox")
                 then VStrings [] else VString "").
Proof.
  intros (before & after & -> & Hafter) Hc.
  destruct (custom_fields_keys_aux (before ++ f :: after) address)
    as [[_ Hall]|(o & Ho & _)].
  - specialize (Hall f). rewrite Hc in Hall.
    assert (true = false) by (apply Hall, elem_of_app; right; apply elem_of_cons; by left).
    done.
  - rewrite (resetCustomFields_object _ _ o Ho), lookup_insert_eq.
    eexists. split; [done|].
    rewrite filter_app, filter_cons, decide_True by done.
    rewrite foldl_reset_last; [by rewrite resetValue_spec|].
    intros g [Hcg Hg]%list_elem_of_filter. apply Hafter; [done|congruence].
Qed.

(** X7.  Resetting the mapped form values leaves every property but
    [customFields] as mapped, keeps the keys of [customFields] (the names
    of the custom fields), and overwrites every entry with an empty value:
    an empty list for a checkbox and the empty string for everything else,
    also for a dropdown or date field with a configured default. *)
Theorem reset_overrides_defaults fields address :
  let mapped := mapAddressToFormValues fields address in
  let reset := resetCustomFields fields mapped in
  (∀ k, k ≠ "customFields" → reset !! k = mapped !! k)
  ∧ (reset !! "customFields" = None ↔ ∀ f, f ∈ fields → custom f = false)
  ∧ (∀ v, reset !! "customFields" = Some v →
       ∃ o, v = FObject o
            ∧ (∀ k, is_Some (o !! k) ↔ ∃ f, f ∈ fields ∧ custom f = true ∧ name f = k)
            ∧ (∀ f, lastOfName fields f → custom f = true →
                    o !! name f
                    = Some (if bool_decide (fieldType f = Some "checkbox")
                            then VStrings [] else VString ""))).
Proof.
  intros mapped reset. subst mapped reset.
  destruct (custom_fields_keys_aux fields address) as [[Hnone Hall]|(o & Ho & Hkeys)].
  - (* no custom field: nothing to reset *)
    assert (resetCustomFields fields (mapAddressToFormValues fields address)
            = mapAddressToFormValues fields address) as ->.
    { unfold resetCustomFields. by rewrite Hnone. }
    split_and!; [done| |].
    + split; [done|]. by intros _.
    + intros v Hv. congruence.
  - rewrite (resetCustomFields_object fields _ o Ho).
    split_and!.
    + intros k Hk. by rewrite lookup_insert_ne.
    + rewrite lookup_insert_eq. split; [done|]. intros Hall. exfalso.
      pose proof (proj2 (foldl_customFields_None address fields) Hall) as Hn.
      rewrite mapAddressToFormValues_lookup in Ho by done.
      rewrite Hn in Ho. by rewrite bool_decide_eq_false_2 in Ho by (by intros [?|?]).
    + rewrite lookup_insert_eq. intros v [= <-]. eexists. split; [done|]. split.
      * intros k. rewrite foldl_reset_keys, Hkeys. split.
        -- intros [?|(f & [Hc Hf]%list_elem_of_filter & Hk)]; [done|]. by exists f.
        -- intros (f & Hf & Hc & Hk). left. by exists f.
      * intros f (before & after & -> & Hafter) Hc.
        rewrite filter_app, filter_cons, decide_True by done.
        rewrite foldl_reset_last; [by rewrite resetValue_spec|].
        intros g [Hcg Hg]%list_elem_of_filter. apply Hafter; [done|congruence].
Qed.

(** X8.  [handleAddressSelect]: when [updateAddress] is fulfilled, the
    handler sets the form values once, keeping the other values and
    replacing the address form with the reset mapping of the selected
    address; when it is rejected, the form is not touched and the error
    goes to [onUnhandledError], whose completion is the handler's.  Either
    way one [updateAddress] call without options is made, the flag ends
    false, and the debounced function and the other flags are left
    alone. *)
Theorem handleAddressSelect_outcomes props address c :
  let fields := getFields props (countryCodeOf (Some address)) in
  let form := resetCustomFields fields (mapAddressToFormValues fields (Some address)) in
  handleAddressSelect props address (Fulfilled tt) c
  = (Fulfilled tt,
     {| state := setIsResettingAddress false (state c);
        debouncedUpdateAddress := debouncedUpdateAddress c;
        now := now c;
        inFlight := inFlight c;
        effects := effects c ++ [UpdateAddress address None;
                                 SetValues (withAddressForm (values props) form)] |})
  ∧ ∀ thrown,
      handleAddressSelect props address (Rejected thrown) c
      = (match onUnhandledError props with
         | Some callback => callback thrown
         | None => Fulfilled tt
         end,
         {| state := setIsResettingAddress false (state c);
            debouncedUpdateAddress := debouncedUpdateAddress c;
            now := now c;
            inFlight := inFlight c;
            effects := effects c ++ [UpdateAddress address None; UnhandledError thrown] |}).
Proof.
  intros fields form. destruct c as [[r u q] d n fl es].
  unfold handleAddressSelect, callOnUnhandledError. split.
  - run_task. by rewrite <- app_assoc.
  - intros thrown. run_task. rewrite <- app_assoc. simpl.
    by destruct (onUnhandledError props) as [cb|]; [destruct (cb thrown)|].
Qed.

(** X9.  [onUseNewAddress]: when [deleteConsignments] is fulfilled, with
    an address or with none, the form values are set once from the reset
    mapping of what it returned; when it is rejected, the form is not
    touched and the error goes to [onUnhandledError]. *)
Theorem onUseNewAddress_outcomes props c :
  (∀ address,
     let fields := getFields props (countryCodeOf address) in
     let form := resetCustomFields fields (mapAddressToFormValues fields address) in
     onUseNewAddress props (Fulfilled address) c
     = (Fulfilled tt,
        {| state := setIsResettingAddress false (state c);
           debouncedUpdateAddress := debouncedUpdateAddress c;
           now := now c;
           inFlight := inFlight c;
           effects := effects c ++ [DeleteConsignments;
                                    SetValues (withAddressForm (values props) form)] |}))
  ∧ ∀ thrown,
      onUseNewAddress props (Rejected thrown) c
      = (match onUnhandledError props with
         | Some callback => callback thrown
         | None => Fulfilled tt
         end,
         {| state := setIsResettingAddress false (state c);
            debouncedUpdateAddress := debouncedUpdateAddress c;
            now := now c;
            inFlight := inFlight c;
            effects := effects c ++ [DeleteConsignments; UnhandledError thrown] |}).
Proof.
  destruct c as [[r u q] d n fl es].
  unfold onUseNewAddress, callOnUnhandledError. split.
  - intros address. run_task. by rewrite <- app_assoc.
  - intros thrown. run_task. rewrite <- app_assoc. simpl.
    by destruct (onUnhandledError props) as [cb|]; [destruct (cb thrown)|].
Qed.

(** X10.  The only effects of a field change are the two [setFieldValue]
    calls that clear the state/province fields when the country changes;
    they are made whether or not the form is valid, and no
    [updateAddress] call is made by the handler itself. *)
Theorem handleFieldChange_effects props name c :
  (handleFieldChange props name c).1 = Fulfilled tt
  ∧ effects (handleFieldChange props name c).2
    = effects c
      ++ (if String.eqb name "countryCode"
          then [SetFieldValue "shippingAddress.stateOrProvince" "";
                SetFieldValue "shippingAddress.stateOrProvinceCode" ""]
          else []).
Proof.
  unfold handleFieldChange, updateAddressWithFormData. destruct c as [st d n fl es].
  destruct (String.eqb name "countryCode"), (isValid props),
    (addressForm (values props)) as [form|]; run_task;
    try destruct (isEqualAddress _ _); run_task;
    rewrite <- ?app_assoc, ?app_nil_r; done.
Qed.

(** X11.  When the debounced [updateAddress] call settles: fulfilled, the
    form remembers that shipping options were requested if this call
    asked for them; rejected, that memory is unchanged and the rejection
    is passed on, not swallowed.  Either way only the state changes. *)
Theorem updateAddressSettled_outcomes includeShippingOptions c :
  updateAddressSettled includeShippingOptions (Fulfilled tt) c
  = (Fulfilled tt,
     {| state :=
          {| isResettingAddress := isResettingAddress (state c);
             isUpdatingShippingData := false;
             hasRequestedShippingOptions :=
               includeShippingOptions || hasRequestedShippingOptions (state c) |};
        debouncedUpdateAddress := debouncedUpdateAddress c;
        now := now c;
        inFlight := inFlight c;
        effects := effects c |})
  ∧ ∀ thrown,
      updateAddressSettled includeShippingOptions (Rejected thrown) c
      = (Rejected thrown,
         {| state := setIsUpdatingShippingData false (state c);
            debouncedUpdateAddress := debouncedUpdateAddress c;
            now := now c;
            inFlight := inFlight c;
            effects := effects c |}).
Proof.
  destruct c as [[r u q] d n fl es]. unfold updateAddressSettled. split.
  - by destruct includeShippingOptions.
  - intros thrown. by destruct includeShippingOptions.
Qed.

Lemma withCustomFieldChange_true shippingAddress updated include :
  withCustomFieldChange shippingAddress updated include = true
  ↔ include = true
    ∨ (hasCustomFieldsArray shippingAddress = true
       ∧ (shippingAddress ≫= customFields) ≠ (updated ≫= customFields)).
Proof.
  unfold withCustomFieldChange.
  destruct (hasCustomFieldsArray shippingAddress).
  - rewrite orb_true_iff, negb_true_iff, bool_decide_eq_false.
    split; [intros [?|?]; [right; by split|by left]|].
    intros [?|[_ ?]]; [by right|by left].
  - split; [by left|]. by intros [?|[? _]].
Qed.

(** X12.  The update an edit schedules asks for shipping options exactly
    when the edited field is a shipping-address field, or options were
    never requested, or the last-synced address has a custom-fields array
    that differs from the one of the edited address. *)
Theorem shipping_options_requested_iff props name form c includeShippingOptions :
  isValid props = true →
  addressForm (values props) = Some form →
  isEqualAddress (mapAddressFromFormValues form) (shippingAddress props) = false →
  pendingArgs (debouncedUpdateAddress (handleFieldChange props name c).2)
  = Some (mapAddressFromFormValues form, includeShippingOptions) →
  includeShippingOptions = true
  ↔ name ∈ SHIPPING_ADDRESS_FIELDS
    ∨ hasRequestedShippingOptions (state c) = false
    ∨ (hasCustomFieldsArray (shippingAddress props) = true
       ∧ (shippingAddress props ≫= customFields)
         ≠ customFields (mapAddressFromFormValues form)).
Proof.
  intros Hv Hf Hne Hp.
  destruct (handleFieldChange_schedules props name form c Hv Hf Hne) as (_ & Hd).
  rewrite Hd in Hp. simpl in Hp. injection Hp as <-.
  rewrite withCustomFieldChange_true, orb_true_iff, bool_decide_eq_true, negb_true_iff.
  simpl. tauto.
Qed.

(** *** Invariants of the running form *)

(** A field change either leaves the form as it is or hands a payload to
    the debounced function and marks the form as updating. *)
Lemma handleFieldChange_cases props name c :
  let c' := (handleFieldChange props name c).2 in
  now c' = now c
  ∧ inFlight c' = inFlight c
  ∧ ((state c' = state c ∧ debouncedUpdateAddress c' = debouncedUpdateAddress c)
     ∨ (isUpdatingShippingData (state c') = true
        ∧ ∃ args, debouncedUpdateAddress c'
                  = invoke (now c) args (debouncedUpdateAddress c))).
Proof.
  unfold handleFieldChange, updateAddressWithFormData. destruct c as [st d n fl es].
  destruct (String.eqb name "countryCode"), (isValid props),
    (addressForm (values props)) as [form|]; run_task;
    try destruct (isEqualAddress _ _); run_task;
    split_and!; try done; try (by left); right; split; try done; by eexists.
Qed.

(** Letting the clock advance either changes nothing but the clock, or
    turns the pending call into a call in flight. *)
Lemma advance_cases t c :
  let c' := advance t c in
  state c' = state c
  ∧ ((debouncedUpdateAddress c' = debouncedUpdateAddress c
      ∧ inFlight c' = inFlight c ∧ effects c' = effects c)
     ∨ ∃ address includeShippingOptions,
         pendingArgs (debouncedUpdateAddress c) = Some (address, includeShippingOptions)
         ∧ debouncedUpdateAddress c' = clearPending (debouncedUpdateAddress c)
         ∧ inFlight c' = inFlight c ++ [(address, includeShippingOptions)]
         ∧ effects c' = effects c ++ [UpdateAddress address (Some includeShippingOptions)]).
Proof.
  destruct (expired (now c `max` t) (debouncedUpdateAddress c)) as [[a i]|] eqn:E.
  - rewrite (advance_fires t c a i E). simpl. split; [done|]. right. exists a, i.
    split_and!; try done. unfold expired in E.
    destruct (pendingArgs (debouncedUpdateAddress c)) as [args|]; [|done].
    by destruct (_ <=? _)%nat; [injection E as ->|].
  - rewrite (advance_quiet t c E). simpl. split; [done|]. by left.
Qed.

(** A settling call changes the state and the calls in flight only. *)
Lemma handle_settles_cases index outcome c :
  let c' := handle (UpdateAddressSettles index outcome) c in
  debouncedUpdateAddress c' = debouncedUpdateAddress c
  ∧ effects c' = effects c
  ∧ (c' = c ∨ isUpdatingShippingData (state c') = false).
Proof.
  simpl. destruct (inFlight c !! index) as [[a i]|] eqn:E; [|by split_and!; try left].
  destruct c as [[r u q] d n fl es]. unfold updateAddressSettled.
  destruct outcome as [[]|thrown], i; simpl; split_and!; try done; by right.
Qed.

(** What every event preserves, every run preserves. *)
Lemma run_preserves (P : Component → Prop) events c :
  (∀ t c, P c → P (advance t c)) →
  (∀ e c, P c → P (handle e c)) →
  P c → P (run events c).
Proof.
  intros Hadvance Hhandle. revert c.
  induction events as [|[t e] events IH]; intros c Hc; simpl; [done|].
  apply IH, Hhandle, Hadvance, Hc.
Qed.

(** X13.  While the form is marked as updating, an update is outstanding:
    a call is pending in the debounced function or one is in flight.  So
    the flag is never on with nothing left to clear it. *)
Theorem updating_means_outstanding props events :
  let c := run events (construct props) in
  isUpdatingShippingData (state c) = true →
  is_Some (pendingArgs (debouncedUpdateAddress c)) ∨ inFlight c ≠ [].
Proof.
  apply (run_preserves
           (λ c, isUpdatingShippingData (state c) = true →
                 is_Some (pendingArgs (debouncedUpdateAddress c)) ∨ inFlight c ≠ [])).
  - intros t c Hc. destruct (advance_cases t c) as (Hs & [(Hd & Hf & _)|Hfired]).
    + rewrite Hs, Hd, Hf. exact Hc.
    + destruct Hfired as (a & i & _ & _ & Hf & _). intros _. right. rewrite Hf.
      by destruct (inFlight c).
  - intros [props' name|index outcome] c Hc.
    + destruct (handleFieldChange_cases props' name c) as (_ & Hf & [[Hs Hd]|Hsched]).
      * simpl. rewrite Hs, Hd, Hf. exact Hc.
      * destruct Hsched as (_ & args & Hd). intros _. left. simpl. rewrite Hd.
        by eexists.
    + destruct (handle_settles_cases index outcome c) as (_ & _ & [->|Hoff]); [done|].
      intros Hon. congruence.
  - done.
Qed.

(** X14.  Debouncing never multiplies calls: after any events, the
    [updateAddress] calls made so far, plus the pending one if there is
    one, are at most as many as the field changes. *)
Theorem calls_bounded_by_edits props events :
  let c := run events (construct props) in
  (length (updateAddressCalls (effects c))
   + (if pendingArgs (debouncedUpdateAddress c) is Some _ then 1 else 0)
   ≤ fieldChanges events)%nat.
Proof.
  simpl.
  assert (∀ events c,
            (length (updateAddressCalls (effects (run events c)))
             + (if pendingArgs (debouncedUpdateAddress (run events c)) is Some _ then 1 else 0)
             ≤ length (updateAddressCalls (effects c))
               + (if pendingArgs (debouncedUpdateAddress c) is Some _ then 1 else 0)
               + fieldChanges events)%nat) as Hgen.
  { clear events. intros events.
    induction events as [|[t e] events IH]; intros c; simpl; [lia|].
    etrans; [apply IH|].
    assert (fieldChanges ((t, e) :: events)
            = ((if isFieldChange e then 1 else 0) + fieldChanges events)%nat) as ->.
    { unfold fieldChanges. rewrite filter_cons. simpl.
      by destruct (isFieldChange e); [rewrite decide_True|rewrite decide_False]. }
    assert ((length (updateAddressCalls (effects (advance t c)))
             + (if pendingArgs (debouncedUpdateAddress (advance t c)) is Some _ then 1 else 0)
             = length (updateAddressCalls (effects c))
               + (if pendingArgs (debouncedUpdateAddress c) is Some _ then 1 else 0))%nat) as Hadv.
    { destruct (advance_cases t c) as (_ & [(-> & _ & ->)|Hfired]); [done|].
      destruct Hfired as (a & i & Hp & -> & _ & ->). rewrite Hp.
      unfold updateAddressCalls. rewrite omap_app, length_app. simpl. lia. }
    rewrite <- Hadv. generalize (advance t c). intros c1.
    destruct e as [props' name|index outcome]; simpl isFieldChange.
    - destruct (handleFieldChange_frame props' name c1) as (_ & _ & Hcalls & _ & Hd).
      simpl. rewrite Hcalls.
      destruct Hd as [-> | [args ->]]; simpl; [lia|].
      destruct (pendingArgs (debouncedUpdateAddress c1)); lia.
    - destruct (handle_settles_cases index outcome c1) as (-> & -> & _). lia. }
  specialize (Hgen events (construct props)). simpl in Hgen. lia.
Qed.

(** X15.  The debounce delay is fixed when the form is constructed: the
    [shippingAutosaveDelay] prop when it is given, zero included, and 1700
    milliseconds otherwise; no event changes it. *)
Theorem debounce_delay_is_fixed props events :
  wait (debouncedUpdateAddress (run events (construct props)))
  = match shippingAutosaveDelay props with
    | Some delay => delay
    | None => 1700%nat
    end.
Proof.
  apply (run_preserves
           (λ c, wait (debouncedUpdateAddress c)
                 = match shippingAutosaveDelay props with
                   | Some delay => delay
                   | None => 1700%nat
                   end)).
  - intros t c Hc. destruct (advance_cases t c) as (_ & [(-> & _)|Hfired]); [done|].
    by destruct Hfired as (a & i & _ & -> & _).
  - intros [props' name|index outcome] c Hc.
    + destruct (handleFieldChange_frame props' name c) as (_ & _ & _ & _ & Hd).
      simpl. by destruct Hd as [-> | [args ->]].
    + by destruct (handle_settles_cases index outcome c) as (-> & _).
  - simpl. by destruct (shippingAutosaveDelay props).
Qed.

(** X16.  On mount the custom fields of the form hold what the mapper
    gives them, so a custom dropdown shows its configured default; when
    the render timestamp changes the form is set again with every custom
    field reset, so the same dropdown is blank; when the timestamp is the
    same nothing is done. *)
Theorem componentDidUpdate_resets props rendered prev c f d :
  lastOfName (getFields props (countryCodeOf (shippingAddress props))) f →
  custom f = true →
  fieldType f = Some DynamicFormFieldType.dropdown →
  configuredDefault f = Some d →
  (∃ form o, addressForm (mapPropsToValues props rendered) = Some form
             ∧ form !! "customFields" = Some (FObject o)
             ∧ o !! name f = Some (VString d))
  ∧ (shippingFormRenderTimestamp rendered = prev →
     componentDidUpdate prev props rendered c = (Fulfilled tt, c))
  ∧ (shippingFormRenderTimestamp rendered ≠ prev →
     ∃ form o,
       componentDidUpdate prev props rendered c
       = (Fulfilled tt,
          {| state := state c;
             debouncedUpdateAddress := debouncedUpdateAddress c;
             now := now c;
             inFlight := inFlight c;
             effects :=
               effects c
               ++ [SetValues {| billingSameAsShipping := isBillingSameAsShipping rendered;
                                addressForm := Some form;
                                orderComment := customerMessage rendered |}] |})
       ∧ form !! "customFields" = Some (FObject o)
       ∧ o !! name f = Some (VString "")).
Proof.
  intros Hlast Hc Hdrop Hd.
  set (fields := getFields props (countryCodeOf (shippingAddress props))) in *.
  split_and!.
  - destruct Hlast as (before & after & Hfields & Hafter).
    destruct (foldl_reducer_custom_last (shippingAddress props) before f after Hc)
      as (o & Ho & Hof).
    { intros g Hg Hcg. apply Hafter; [done|congruence]. }
    exists (mapAddressToFormValues fields (shippingAddress props)), o.
    split_and!; [done| |].
    + rewrite mapAddressToFormValues_lookup by done. by rewrite Hfields, Ho.
    + rewrite Hof. f_equal. unfold customFieldInitialValue. rewrite Hd, Hdrop.
      reflexivity.
  - intros Hsame. unfold componentDidUpdate. by rewrite bool_decide_eq_false_2 by tauto.
  - intros Hchanged. unfold componentDidUpdate. rewrite bool_decide_eq_true_2 by done.
    fold fields.
    destruct (reset_fields_aux fields (shippingAddress props) f Hlast Hc) as (o & Ho & Hof).
    exists (resetCustomFields fields (mapAddressToFormValues fields (shippingAddress props))), o.
    split_and!; [by destruct c|done|].
    rewrite Hof, bool_decide_eq_false_2; [done|]. rewrite Hdrop. done.
Qed.

End SingleShippingFormExtras.

(** ** More on the multi-address form *)

Section MultiShippingFormExtras.
Import MultiShippingForm.
Context `{AddressModule} `{ShippingModule} `{ShippableItemsModule}.


(** X18.  Selecting a valid address whose assignment is rejected leaves
    the state as it was.  An [Error] is wrapped in an
    [AssignItemFailedError] and handed to [onUnhandledError]; any other
    thrown value is dropped without a report. *)
Theorem handleSelectAddress_rejected props address itemId itemKey c :
  isValidAddress address (getFields props (countryCodeOf (Some address)))
                 (validateAddressFields props) = true →
  let call := AssignItem {| MultiShippingForm.address := address;
                            lineItems := [(itemId, 1%nat)] |} in
  (∀ e,
     handleSelectAddress props address itemId itemKey (Rejected (ThrowError e)) c
     = (onUnhandledError props (AssignItemFailedError e),
        {| state := state c;
           effects := effects c ++ [call; UnhandledError (AssignItemFailedError e)] |}))
  ∧ (∀ v,
       handleSelectAddress props address itemId itemKey (Rejected (ThrowValue v)) c
       = (Fulfilled tt, {| state := state c; effects := effects c ++ [call] |})).
Proof.
  intros Hvalid call. unfold handleSelectAddress, callOnUnhandledError.
  rewrite Hvalid. simpl. destruct c as [st es]. split.
  - intros e. run_task. rewrite <- app_assoc. simpl.
    by destruct (onUnhandledError props (AssignItemFailedError e)).
  - intros v. by run_task.
Qed.

(** X19.  Saving an address while the address form is open for no item
    does nothing: no call, no report, no state change. *)
Theorem handleSaveAddress_without_item props form assigned persisted c :
  itemAddingAddress (state c) = None →
  handleSaveAddress props form assigned persisted c = (Fulfilled tt, c).
Proof.
  intros Hnone. unfold handleSaveAddress. destruct c as [[its adding err] es].
  simpl in Hnone. subst adding. by run_task.
Qed.

(** X20.  The address is persisted whether or not it could be assigned:
    when the address is invalid, or the assignment is rejected with an
    [Error], and [onUnhandledError] returns, [createCustomerAddress] is
    still called and the address form is closed, with the items as they
    were.  When [onUnhandledError] throws instead, nothing is persisted and
    the form stays open. *)
Theorem handleSaveAddress_after_failed_assignment props form adding assigned persisted c :
  let shippingAddress := mapAddressFromFormValues form in
  let valid :=
    isValidAddress shippingAddress (getFields props (countryCodeOf (Some shippingAddress)))
                   (validateAddressFields props) in
  let call := AssignItem {| MultiShippingForm.address := shippingAddress;
                            lineItems := [(itemId adding, 1%nat)] |} in
  itemAddingAddress (state c) = Some adding →
  ∀ reported error,
    (valid = false ∧ reported = [UnhandledError error]
     ∧ error = AssignItemInvalidAddressError)
    ∨ (∃ e, valid = true ∧ assigned = Rejected (ThrowError e)
            ∧ reported = [call; UnhandledError error]
            ∧ error = AssignItemFailedError e) →
    let saved := handleSaveAddress props form assigned persisted c in
    (onUnhandledError props error = Fulfilled tt →
     effects saved.2 = effects c ++ reported ++ [CreateCustomerAddress shippingAddress]
     ∧ items (state saved.2) = items (state c)
     ∧ itemAddingAddress (state saved.2) = None)
    ∧ (∀ thrown, onUnhandledError props error = Rejected thrown →
         saved = (Rejected thrown,
                  {| state := state c; effects := effects c ++ reported |})).
Proof.
  intros shippingAddress valid call Hadding reported error Hfailed saved.
  unfold saved, handleSaveAddress, handleSelectAddress, callOnUnhandledError.
  fold shippingAddress. destruct c as [[its adding' err] es]. simpl in Hadding.
  subst adding'.
  destruct Hfailed as [(Hv & -> & ->)|(e & Hv & -> & -> & ->)];
    unfold valid in Hv; rewrite Hv; run_task.
  - split.
    + intros ->. simpl. destruct persisted as [[]|[e|v]]; simpl;
        rewrite <- ?app_assoc; done.
    + intros thrown ->. done.
  - fold call. split.
    + intros ->. simpl. destruct persisted as [[]|[e'|v]]; simpl;
        rewrite <- ?app_assoc; done.
    + intros thrown ->. simpl. by rewrite <- app_assoc.
Qed.

(** Saving a valid address whose assignment is fulfilled, however the
    persistence settles. *)
Lemma handleSaveAddress_assigned props form adding data persisted c :
  let shippingAddress := mapAddressFromFormValues form in
  itemAddingAddress (state c) = Some adding →
  isValidAddress shippingAddress (getFields props (countryCodeOf (Some shippingAddress)))
                 (validateAddressFields props) = true →
  handleSaveAddress props form (Fulfilled data) persisted c
  = (Fulfilled tt,
     {| state :=
          {| items :=
               default (items (state c))
                 (updateShippableItems (items (state c))
                    (findIndex (λ item, String.eqb (ShippableItem.key item) (key adding))
                               (items (state c)))
                    shippingAddress (getCart data) (getConsignments data));
             itemAddingAddress := None;
             createCustomerAddressError :=
               match persisted with
               | Rejected (ThrowError e) => Some e
               | _ => createCustomerAddressError (state c)
               end |};
        effects :=
          effects c
          ++ [AssignItem {| MultiShippingForm.address := shippingAddress;
                            lineItems := [(itemId adding, 1%nat)] |};
              CreateCustomerAddress shippingAddress] |}).
Proof.
  intros shippingAddress Hadding Hvalid.
  unfold handleSaveAddress, handleSelectAddress. fold shippingAddress.
  rewrite Hvalid. simpl. destruct c as [[its adding' err] es]. simpl in Hadding.
  subst adding'. run_task. rewrite !syncItems_spec. simpl.
  destruct persisted as [[]|[e|v]]; simpl; by rewrite <- app_assoc.
Qed.


(** X22.  Opening the address form for an item and saving: the
    assignment is made for the item the form was opened for, whichever
    item it was open for before; closing the form in between cancels the
    save. *)
Theorem save_targets_the_opened_item props form itemId itemKey data persisted c :
  let shippingAddress := mapAddressFromFormValues form in
  let opened := (handleUseNewAddress itemId itemKey c).2 in
  let closed := (handleCloseAddAddressForm opened).2 in
  isValidAddress shippingAddress (getFields props (countryCodeOf (Some shippingAddress)))
                 (validateAddressFields props) = true →
  (isAddressFormOpen (state opened) = true ∧ items (state opened) = items (state c))
  ∧ assignItemCalls
      (effects (handleSaveAddress props form (Fulfilled data) persisted opened).2)
    = assignItemCalls (effects c)
      ++ [{| MultiShippingForm.address := shippingAddress;
             lineItems := [(itemId, 1%nat)] |}]
  ∧ isAddressFormOpen
      (state (handleSaveAddress props form (Fulfilled data) persisted opened).2) = false
  ∧ handleSaveAddress props form (Fulfilled data) persisted closed = (Fulfilled tt, closed).
Proof.
  intros shippingAddress opened closed Hvalid.
  pose proof (handleSaveAddress_assigned props form
                {| key := itemKey; itemId := itemId |} data persisted opened
                eq_refl Hvalid) as Hsaved.
  fold shippingAddress in Hsaved. rewrite Hsaved. simpl.
  split_and!; [done|done| |done|done].
  unfold assignItemCalls. rewrite omap_app. simpl. by destruct c.
Qed.





(** X24.  The derived item list is rebuilt from the cart and the
    consignments when there is no state yet or when the number of
    shippable items differs from the number of items held; while the
    numbers agree the items are kept, whatever the consignments are.  When
    [getShippableLineItems] returns as many items as
    [getShippableItemsCount] counts, a rebuilt list is stable. *)
Theorem derived_items_follow_the_count cart consignments s :
  getDerivedStateFromProps cart consignments None
  = Some (getShippableLineItems cart consignments)
  ∧ (getShippableItemsCount cart = length (items s) →
     ∀ consignments', derive cart consignments' s = s)
  ∧ (getShippableItemsCount cart ≠ length (items s) →
     derive cart consignments s = setItems (getShippableLineItems cart consignments) s)
  ∧ (length (getShippableLineItems cart consignments) = getShippableItemsCount cart →
     ∀ consignments',
       derive cart consignments' (derive cart consignments s) = derive cart consignments s).
Proof.
  assert (∀ s', getShippableItemsCount cart = length (items s') →
                ∀ consignments', derive cart consignments' s' = s') as Hkeep.
  { intros s' Hsame consignments'. unfold derive, getDerivedStateFromProps.
    by rewrite bool_decide_eq_false_2 by tauto. }
  assert (getShippableItemsCount cart ≠ length (items s) →
          derive cart consignments s
          = setItems (getShippableLineItems cart consignments) s) as Hrebuild.
  { intros Hdiff. unfold derive, getDerivedStateFromProps.
    by rewrite bool_decide_eq_true_2. }
  split_and!; [done|apply Hkeep|done|].
  intros Hconsistent consignments'.
  destruct (decide (getShippableItemsCount cart = length (items s))) as [Hsame|Hdiff].
  - rewrite (Hkeep s Hsame consignments). by apply Hkeep.
  - rewrite (Hrebuild Hdiff). apply Hkeep. simpl. by rewrite Hconsistent.
Qed.

End MultiShippingFormExtras.

(** ** More on the custom-fields schema *)

Section SchemaExtras.
Context `{JsRuntime}.

(** X25.  The custom-form-fields schema does not look at the field list
    it is given: it accepts the mapped form values and the reset ones for
    every field list, so also when a required custom field is empty. *)
Theorem custom_schema_accepts_empty_answers formFields fields address :
  getCustomFormFieldsValidationSchema formFields
    (Some (mapAddressToFormValues fields address)) = true
  ∧ getCustomFormFieldsValidationSchema formFields
      (Some (SingleShippingForm.resetCustomFields fields
               (mapAddressToFormValues fields address))) = true
  ∧ ∀ formFields' formValues,
      getCustomFormFieldsValidationSchema formFields' formValues
      = getCustomFormFieldsValidationSchema formFields formValues.
Proof.
  split_and!; [| |done].
  - unfold getCustomFormFieldsValidationSchema.
    by destruct (custom_fields_keys_aux fields address) as [[-> _]|(o & -> & _)].
  - unfold getCustomFormFieldsValidationSchema.
    destruct (custom_fields_keys_aux fields address) as [[Hnone _]|(o & Ho & _)].
    + unfold SingleShippingForm.resetCustomFields. rewrite Hnone. simpl.
      by rewrite Hnone.
    + by rewrite (resetCustomFields_object fields _ o Ho), lookup_insert_eq.
Qed.

End SchemaExtras.

(** ** The properties above on the sample data *)

Lemma custom_fields_keys_witness :
  ∃ o, mapAddressToFormValues (H := Sample.runtime) Sample.fields (Some Sample.address)
         !! "customFields" = Some (FObject o)
       ∧ is_Some (o !! "gift_wrap") ∧ ¬ is_Some (o !! "city").
Proof.
  destruct (custom_fields_keys (H := Sample.runtime) Sample.fields (Some Sample.address))
    as [_ Hkeys].
  destruct (mapAddressToFormValues (H := Sample.runtime) Sample.fields (Some Sample.address)
              !! "customFields") as [v|] eqn:E; [|by vm_compute in E].
  destruct (Hkeys v eq_refl) as (o & -> & Ho). exists o. split_and!; [done| |].
  - apply Ho. exists Sample.giftWrap. split_and!; [|done..].
    apply elem_of_cons. by left.
  - intros (f & Hf & Hc & Hn)%Ho. unfold Sample.fields in Hf.
    rewrite !elem_of_cons, elem_of_nil in Hf.
    destruct Hf as [->|[->|[->|[->|[]]]]]; discriminate.
Defined.

Lemma field_order_is_irrelevant_witness :
  mapAddressToFormValues (H := Sample.runtime) [Sample.city; Sample.giftMessage]
    (Some Sample.address)
  = mapAddressToFormValues (H := Sample.runtime) [Sample.giftMessage; Sample.city]
      (Some Sample.address).
Proof.
  apply (field_order_is_irrelevant (H := Sample.runtime)).
  - apply perm_swap.
  - intros f g Hf Hg. rewrite !elem_of_cons, elem_of_nil in Hf, Hg.
    destruct Hf as [->|[->|[]]], Hg as [->|[->|[]]]; done.
Defined.


Lemma lastOfName_birthday : lastOfName Sample.fields Sample.birthday.
Proof.
  exists [Sample.giftWrap; Sample.city; Sample.deliveryDate], [].
  split; [reflexivity|]. intros g Hg. by apply elem_of_nil in Hg.
Defined.

Lemma lastOfName_deliveryDate : lastOfName Sample.fields Sample.deliveryDate.
Proof.
  exists [Sample.giftWrap; Sample.city], [Sample.birthday].
  split; [reflexivity|]. intros g Hg. apply list_elem_of_singleton in Hg. by subst g.
Defined.


Lemma date_system_field_witness :
  mapAddressToFormValues (H := Sample.runtime) Sample.fields (Some Sample.address)
    !! "birthday" = Some (FLeaf (VString "1990/07/04")).
Proof.
  destruct (date_system_field (H := Sample.runtime) Sample.fields
              (Some Sample.address) Sample.birthday lastOfName_birthday
              eq_refl eq_refl eq_refl) as (Hparts & _).
  apply (Hparts "1990" "07" "04"); reflexivity.
Defined.

Lemma reset_overrides_defaults_witness :
  ∃ o, SingleShippingForm.resetCustomFields Sample.fields
         (mapAddressToFormValues (H := Sample.runtime) Sample.fields (Some Sample.address))
         !! "customFields" = Some (FObject o)
       ∧ o !! "delivery_date" = Some (VString "").
Proof.
  destruct (reset_overrides_defaults (H := Sample.runtime) Sample.fields
              (Some Sample.address)) as (_ & _ & Hreset).
  destruct (SingleShippingForm.resetCustomFields Sample.fields
              (mapAddressToFormValues (H := Sample.runtime) Sample.fields
                 (Some Sample.address)) !! "customFields") as [v|] eqn:E;
    [|by vm_compute in E].
  destruct (Hreset v eq_refl) as (o & -> & _ & Hlast). exists o. split; [done|].
  apply (Hlast Sample.deliveryDate lastOfName_deliveryDate eq_refl).
Defined.

Lemma shipping_options_requested_witness :
  "city" ∈ (SHIPPING_ADDRESS_FIELDS (ShippingModule := Sample.shippingModule))
  ∨ SingleShippingForm.hasRequestedShippingOptions
      (SingleShippingForm.state
         (SingleShippingForm.construct
            (Sample.singleProps None (Some Sample.austin) "Boston"))) = false
  ∨ (SingleShippingForm.hasCustomFieldsArray (Some Sample.austin) = true
     ∧ (Some Sample.austin ≫= customFields) ≠ customFields Sample.boston).
Proof.
  apply (shipping_options_requested_iff (H0 := Sample.addressModule)
           (H1 := Sample.shippingModule)
           (Sample.singleProps None (Some Sample.austin) "Boston") "city"
           (Sample.form "Boston")
           (SingleShippingForm.construct
              (Sample.singleProps None (Some Sample.austin) "Boston")) true);
    [reflexivity|reflexivity|by vm_compute|by vm_compute|reflexivity].
Defined.

Lemma updating_means_outstanding_witness :
  let c :=
    SingleShippingForm.run (H := Sample.addressModule) (H0 := Sample.shippingModule)
      [(0%nat, SingleShippingForm.FieldChange
                 (Sample.singleProps None (Some Sample.austin) "Boston") "city")]
      (SingleShippingForm.construct
         (Sample.singleProps None (Some Sample.austin) "Boston")) in
  is_Some (pendingArgs (SingleShippingForm.debouncedUpdateAddress c))
  ∨ SingleShippingForm.inFlight c ≠ [].
Proof.
  apply (updating_means_outstanding (H0 := Sample.addressModule)
           (H1 := Sample.shippingModule)
           (Sample.singleProps None (Some Sample.austin) "Boston")
           [(0%nat, SingleShippingForm.FieldChange
                      (Sample.singleProps None (Some Sample.austin) "Boston") "city")]).
  by vm_compute.
Defined.

Lemma componentDidUpdate_resets_witness :
  ∃ (form : AddressFormValues) o,
    SingleShippingForm.effects
      (SingleShippingForm.componentDidUpdate (H := Sample.runtime) (Some 1%nat)
         Sample.giftProps Sample.rendered
         (SingleShippingForm.construct Sample.giftProps)).2
    = [SingleShippingForm.SetValues
         {| SingleShippingForm.billingSameAsShipping := true;
            SingleShippingForm.addressForm := Some form;
            SingleShippingForm.orderComment := "ring twice" |}]
    ∧ form !! "customFields" = Some (FObject o)
    ∧ o !! "gift_message" = Some (VString "").
Proof.
  destruct (componentDidUpdate_resets (H := Sample.runtime) Sample.giftProps
              Sample.rendered (Some 1%nat)
              (SingleShippingForm.construct Sample.giftProps) Sample.giftMessage "none")
    as (_ & _ & Hchanged).
  - exists [Sample.city], []. split; [reflexivity|].
    intros g Hg. by apply elem_of_nil in Hg.
  - reflexivity.
  - reflexivity.
  - reflexivity.
  - destruct Hchanged as (form & o & Hrun & Hform & Ho); [discriminate|].
    exists form, o. by rewrite Hrun.
Defined.


Lemma handleSelectAddress_rejected_witness :
  MultiShippingForm.state
    (MultiShippingForm.handleSelectAddress (H := Sample.addressModule)
       (H0 := Sample.shippingModule) Sample.multiProps Sample.austin "42" "a"
       (Rejected (ThrowError (SdkError "offline"))) Sample.multiComponent).2
  = MultiShippingForm.state Sample.multiComponent.
Proof.
  destruct (handleSelectAddress_rejected (H := Sample.addressModule)
              (H0 := Sample.shippingModule) Sample.multiProps Sample.austin "42" "a"
              Sample.multiComponent) as [Herror _]; [by vm_compute|].
  by rewrite Herror.
Defined.

Lemma handleSaveAddress_without_item_witness :
  MultiShippingForm.handleSaveAddress (H := Sample.addressModule)
    (H0 := Sample.shippingModule) Sample.multiProps (Sample.form "Austin")
    (Fulfilled Sample.checkoutData) (Fulfilled tt) MultiShippingForm.initial
  = (Fulfilled tt, MultiShippingForm.initial).
Proof.
  by apply (handleSaveAddress_without_item (H := Sample.addressModule)
              (H0 := Sample.shippingModule)).
Defined.

Lemma handleSaveAddress_after_failed_assignment_witness :
  MultiShippingForm.effects
    (MultiShippingForm.handleSaveAddress (H := Sample.addressModule)
       (H0 := Sample.shippingModule) Sample.multiProps (Sample.form "")
       (Fulfilled Sample.checkoutData) (Fulfilled tt) Sample.multiComponent).2
  = [MultiShippingForm.UnhandledError AssignItemInvalidAddressError;
     MultiShippingForm.CreateCustomerAddress Sample.nowhere].
Proof.
  destruct (handleSaveAddress_after_failed_assignment (H := Sample.addressModule)
              (H0 := Sample.shippingModule) Sample.multiProps (Sample.form "")
              {| MultiShippingForm.key := "b"; MultiShippingForm.itemId := "42" |}
              (Fulfilled Sample.checkoutData) (Fulfilled tt) Sample.multiComponent
              eq_refl
              [MultiShippingForm.UnhandledError AssignItemInvalidAddressError]
              AssignItemInvalidAddressError) as [Hreturns _].
  - left. split_and!; [by vm_compute|done|done].
  - destruct Hreturns as (Heffects & _); [reflexivity|]. exact Heffects.
Defined.


Lemma save_targets_the_opened_item_witness :
  MultiShippingForm.assignItemCalls
    (MultiShippingForm.effects
       (MultiShippingForm.handleSaveAddress (H := Sample.addressModule)
          (H0 := Sample.shippingModule) Sample.multiProps (Sample.form "Austin")
          (Fulfilled Sample.checkoutData) (Fulfilled tt)
          (MultiShippingForm.handleUseNewAddress "7" "a" Sample.multiComponent).2).2)
  = [{| MultiShippingForm.address := Sample.austin;
        MultiShippingForm.lineItems := [("7", 1%nat)] |}].
Proof.
  destruct (save_targets_the_opened_item (H := Sample.addressModule)
              (H0 := Sample.shippingModule) Sample.multiProps (Sample.form "Austin")
              "7" "a" Sample.checkoutData (Fulfilled tt) Sample.multiComponent)
    as (_ & Hcalls & _); [by vm_compute|]. exact Hcalls.
Defined.

Lemma derived_items_follow_the_count_witness :
  let cart := {| lineItemIds := ["1"; "2"] |} in
  let s := MultiShippingForm.state MultiShippingForm.initial in
  MultiShippingForm.derive (H := Sample.shippableItemsModule) cart []
    (MultiShippingForm.derive (H := Sample.shippableItemsModule) cart [] s)
  = MultiShippingForm.derive (H := Sample.shippableItemsModule) cart [] s.
Proof.
  intros cart s.
  destruct (derived_items_follow_the_count (H1 := Sample.shippableItemsModule) cart [] s)
    as (_ & _ & _ & Hstable).
  by apply Hstable.
Defined.
